(** * Twilio <-> OpenAI Realtime audio bridge ([voice.py])

    A shallow embedding of the streaming bridge of [voice.py]: the audio
    codec ([pcm16_to_mulaw], [mulaw_to_pcm16], [upsample_8k_to_24k],
    [downsample_24k_to_8k]), the two data pumps of [media_stream]
    ([twilio_to_openai], [openai_to_twilio]) and the handler itself.

    Conventions.
    - An integer sample or byte is a [Z]; a cast to a fixed width writes the
      wrap-around out ([int16_wrap], [uint8_wrap]).
    - A parsed JSON document is a [json] value; a Python exception is the
      [Exn] outcome of a computation in the [result] monad.
    - The float32 primitives numpy applies element-wise and the base64
      decoder of the standard library are interfaces ([NumpyFloat],
      [Base64]); every theorem about the pumps holds for all their
      implementations.
    - What the handler writes to a socket is recorded in a trace; a write
      is taken to succeed.
    - The handler is served by an ASGI server, which closes a connection
      the handler has left open when it returns ([served]). *)

From Stdlib Require Import ZArith String Ascii Bool Lia QArith Reals Lra List.
Import ListNotations.
Open Scope Z_scope.

Set Implicit Arguments.
Set Warnings "-all".

(** ** Python values as [json.loads] yields them *)

Module Py.

Inductive json : Type :=
| JNull
| JBool (b : bool)
| JNum (q : Q)
| JStr (s : string)
| JArr (items : list json)
| JObj (fields : list (string * json)).

(** Computations that may raise. *)
Inductive result (A : Type) : Type :=
| Ok (a : A)
| Exn.
Arguments Exn {A}.

Definition bind {A B} (r : result A) (k : A -> result B) : result B :=
  match r with
  | Ok a => k a
  | Exn => Exn
  end.

(** The binding of [key] in a dict; [json.loads] leaves one binding per key. *)
Fixpoint assoc (key : string) (fields : list (string * json)) : option json :=
  match fields with
  | [] => None
  | (k, v) :: rest => if String.eqb k key then Some v else assoc key rest
  end.

(** [d.get(key)]: [None] for a key that is absent, [AttributeError] for a
    receiver that is not a dict. *)
Definition get (d : json) (key : string) : result json :=
  match d with
  | JObj fields =>
      match assoc key fields with
      | Some v => Ok v
      | None => Ok JNull
      end
  | _ => Exn
  end.

(** [d[key]] with a string key: [KeyError] when absent, [TypeError] on
    a list, a string, a number, a boolean or [None]. *)
Definition index (d : json) (key : string) : result json :=
  match d with
  | JObj fields =>
      match assoc key fields with
      | Some v => Ok v
      | None => Exn
      end
  | _ => Exn
  end.

(** [v == "literal"]. *)
Definition eq_str (v : json) (lit : string) : bool :=
  match v with
  | JStr s => String.eqb s lit
  | _ => false
  end.

(** Truth value of [v], as [not v] and [if v] test it. *)
Definition truthy (v : json) : bool :=
  match v with
  | JNull => false
  | JBool b => b
  | JNum q => negb (Qnum q =? 0)
  | JStr s => negb (String.eqb s "")
  | JArr items => match items with [] => false | _ => true end
  | JObj fields => match fields with [] => false | _ => true end
  end.

End Py.

Import Py.

Declare Scope py_scope.
Notation "'do' x <- e ; k" := (bind e (fun x => k))
  (at level 200, x name, e at level 100, k at level 200, right associativity)
  : py_scope.
Open Scope py_scope.

(** ** Library interfaces *)

(** The float primitives of numpy, applied to one element. *)
Class NumpyFloat : Type := {
  F : Type;
  f_of_int : Z -> F;          (* [astype(np.float32)] of an integer; a float literal *)
  f_add : F -> F -> F;
  f_sub : F -> F -> F;
  f_mul : F -> F -> F;
  f_div : F -> F -> F;
  f_pow : F -> F -> F;        (* [a ** b] *)
  f_log1p : F -> F;           (* [np.log1p] *)
  f_sign : F -> F;            (* [np.sign] *)
  f_abs : F -> F;             (* [np.abs] *)
  f_clip : F -> F -> F -> F;  (* [np.clip(x, lo, hi)] *)
  f_trunc : F -> Z            (* the integer a float-to-integer cast reads *)
}.

(** [base64.b64decode] on a [str]: the bytes, or an exception. *)
Class Base64 : Type := {
  b64decode : string -> result (list Z)
}.

(** ** Fixed-width casts *)

Definition int16_wrap (z : Z) : Z := (z + 32768) mod 65536 - 32768.
Definition uint8_wrap (z : Z) : Z := z mod 256.

Definition is_int16 (z : Z) : Prop := -32768 <= z <= 32767.
Definition is_uint8 (z : Z) : Prop := 0 <= z <= 255.

(** ** Audio codec *)

Module Codec.

Section Companding.
Context {fl : NumpyFloat}.

(** Array-with-scalar arithmetic, as numpy broadcasts it. *)
Definition arr_add (a : list F) (c : F) : list F := map (fun x => f_add x c) a.
Definition arr_sub (a : list F) (c : F) : list F := map (fun x => f_sub x c) a.
Definition arr_mul (a : list F) (c : F) : list F := map (fun x => f_mul x c) a.
Definition arr_div (a : list F) (c : F) : list F := map (fun x => f_div x c) a.
Definition scalar_pow (c : F) (a : list F) : list F := map (fun x => f_pow c x) a.

(** Element-wise product of two arrays of one shape. *)
Fixpoint arr_times (a b : list F) : list F :=
  match a, b with
  | x :: a', y :: b' => f_mul x y :: arr_times a' b'
  | _, _ => []
  end.

Definition astype_float (a : list Z) : list F := map f_of_int a.
Definition astype_int16 (a : list F) : list Z := map (fun x => int16_wrap (f_trunc x)) a.
Definition astype_uint8 (a : list F) : list Z := map (fun x => uint8_wrap (f_trunc x)) a.
Definition xor_ff (a : list Z) : list Z := map (fun b => Z.lxor b 255) a.

(** [pcm16_to_mulaw], lines 94-102. The result is the byte string of the
    array, one byte per sample. *)
Definition pcm16_to_mulaw (samples : list Z) : list Z :=
  if (length samples =? 0)%nat then []
  else
    let x := map (fun v => f_clip v (f_of_int (-1)) (f_of_int 1))
                 (arr_div (astype_float samples) (f_of_int 32768)) in
    let mu := f_of_int 255 in
    let y := arr_div (arr_times (map f_sign x)
                                (map f_log1p (map (fun v => f_mul mu v) (map f_abs x))))
                     (f_log1p mu) in
    let mu_law := xor_ff (astype_uint8
                    (arr_mul (arr_div (arr_add y (f_of_int 1)) (f_of_int 2)) (f_of_int 255))) in
    mu_law.

(** [mulaw_to_pcm16], lines 105-112. *)
Definition mulaw_to_pcm16 (mu : list Z) : list Z :=
  if (length mu =? 0)%nat then []
  else
    let y := astype_float (xor_ff mu) in
    let y := arr_sub (arr_mul (arr_div y (f_of_int 255)) (f_of_int 2)) (f_of_int 1) in
    let mu_c := f_of_int 255 in
    let x := arr_div
               (arr_times (map f_sign y)
                          (arr_sub (scalar_pow (f_add (f_of_int 1) mu_c) (map f_abs y))
                                   (f_of_int 1)))
               mu_c in
    astype_int16
      (map (fun v => f_clip v (f_of_int (-32768)) (f_of_int 32767))
           (arr_mul x (f_of_int 32768))).

(** The decoder as the specification words it, one byte at a time. *)
Definition invert_bits (b : Z) : Z := Z.lxor b 255.

Definition scale_to_unit (c : Z) : F :=
  f_sub (f_mul (f_div (f_of_int c) (f_of_int 255)) (f_of_int 2)) (f_of_int 1).

Definition inverse_curve (y : F) : F :=
  let mu := f_of_int 255 in
  f_div (f_mul (f_sign y)
               (f_sub (f_pow (f_add (f_of_int 1) mu) (f_abs y)) (f_of_int 1)))
        mu.

Definition scale_to_16bit (x : F) : F := f_mul x (f_of_int 32768).

Definition clamp_16bit (x : F) : F := f_clip x (f_of_int (-32768)) (f_of_int 32767).

Definition compand_decode_byte (b : Z) : Z :=
  int16_wrap (f_trunc (clamp_16bit (scale_to_16bit (inverse_curve
    (scale_to_unit (invert_bits b)))))).

Definition compand_decode_spec (bytes : list Z) : list Z :=
  map compand_decode_byte bytes.

End Companding.

(** *** Resampling *)

(** [np.repeat(a, 3)]. *)
Definition np_repeat3 (a : list Z) : list Z :=
  flat_map (fun s => [s; s; s]) a.

(** [upsample_8k_to_24k], lines 115-118. *)
Definition upsample_8k_to_24k (pcm16_8k : list Z) : list Z :=
  if (length pcm16_8k =? 0)%nat then pcm16_8k
  else map int16_wrap (np_repeat3 pcm16_8k).

(** [a.reshape(-1, 3)] of an array whose size is a multiple of 3. *)
Fixpoint reshape3 (a : list Z) : list (Z * Z * Z) :=
  match a with
  | x :: y :: z :: rest => (x, y, z) :: reshape3 rest
  | _ => []
  end.

(** [mean(axis=1)] of a row of integers, then [astype(np.int16)]: the sum
    is exact in float64, its quotient by 3 is off an integer by a third or
    by nothing, so the cast reads the quotient rounded toward zero. *)
Definition mean3_int16 (row : Z * Z * Z) : Z :=
  let '(x, y, z) := row in int16_wrap (Z.quot (x + y + z) 3).

(** [downsample_24k_to_8k], lines 121-130. *)
Definition downsample_24k_to_8k (pcm16_24k : list Z) : list Z :=
  let n := length pcm16_24k in
  if (n =? 0)%nat then pcm16_24k
  else
    let trim := (n - (n / 3) * 3)%nat in
    let pcm16_24k := if (trim =? 0)%nat then pcm16_24k
                     else firstn (n - trim) pcm16_24k in
    if (length pcm16_24k =? 0)%nat then pcm16_24k
    else map mean3_int16 (reshape3 pcm16_24k).

End Codec.

Import Codec.

(** ** The bridge of [media_stream] *)

Module Bridge.

(** What is written to the OpenAI socket. An [append] keeps the sample
    array it carries, before [tobytes] and [b64encode]. *)
Inductive directive : Type :=
| session_update (instructions voice : string)
| response_create (voice : string)
| response_cancel
| input_audio_buffer_append (audio : list Z)
| input_audio_buffer_commit.

(** The ["media"] event written to the Twilio socket; [ev_payload] is the
    mu-law byte string before [b64encode]. *)
Record media_event : Type := {
  ev_streamSid : json;
  ev_payload : list Z
}.

(** One [await ws.receive_text()] followed by [json.loads]. *)
Inductive ws_input : Type :=
| ws_text (parsed : result json)   (* [Exn]: the text is not JSON *)
| ws_disconnect.                   (* [receive_text] raises *)

(** One message of [async for msg in oa]. *)
Inductive oa_msg : Type :=
| oa_text (parsed : result json)   (* [WSMsgType.TEXT] and [json.loads(msg.data)] *)
| oa_error                         (* [WSMsgType.ERROR] *)
| oa_other                         (* a type no branch tests *)
| oa_closed.                       (* the iteration ends *)

(** The variables the two pumps share through [nonlocal]. *)
Record call_state : Type := {
  frames_since_commit : Z;
  stream_sid : json;
  cancelled_once : bool
}.

Definition TWILIO_FRAME_MS : Z := 20.
Definition MIN_COMMIT_MS : Z := 120.

(** Lines 184-186. *)
Definition initial_state : call_state :=
  {| frames_since_commit := 0; stream_sid := JNull; cancelled_once := false |}.

(** How an iteration of a pump's loop ends. *)
Inductive loop : Type :=
| Continue
| Break.

Section Pumps.
Context {fl : NumpyFloat} {b64 : Base64}.

(** [base64.b64decode(v)] on a JSON value: a [TypeError] unless [v] is a
    string. *)
Definition b64decode_value (v : json) : result (list Z) :=
  match v with
  | JStr s => b64decode s
  | _ => Exn
  end.

(** [np.frombuffer(bytes, dtype=np.int16)]: little-endian pairs, a
    [ValueError] on an odd number of bytes. *)
Fixpoint frombuffer_int16 (bytes : list Z) : result (list Z) :=
  match bytes with
  | [] => Ok []
  | lo :: hi :: rest =>
      do tail <- frombuffer_int16 rest;
      Ok (int16_wrap (lo + 256 * hi) :: tail)
  | _ => Exn
  end.

(** One iteration of [twilio_to_openai], lines 191-232. No state is
    written and nothing is sent before the last statement that can raise,
    so an exception leaves the state as it was. *)
Definition twilio_to_openai_iter (s : call_state) (raw : ws_input)
  : result (list directive * call_state * loop) :=
  match raw with
  | ws_disconnect => Exn
  | ws_text parsed =>
    do data <- parsed;
    do event <- get data "event";
    if eq_str event "connected" then Ok ([], s, Continue)
    else if eq_str event "start" then
      do start <- index data "start";
      do sid <- index start "streamSid";
      Ok ([], {| frames_since_commit := frames_since_commit s;
                 stream_sid := sid;
                 cancelled_once := cancelled_once s |}, Continue)
    else if eq_str event "stop" then Ok ([], s, Break)
    else if negb (eq_str event "media") then Ok ([], s, Continue)
    else
      do media <- index data "media";
      do payload_b64 <- get media "payload";
      if negb (truthy payload_b64) then Ok ([], s, Continue)
      else
        do ulaw <- b64decode_value payload_b64;
        let pcm8 := mulaw_to_pcm16 ulaw in
        if (length pcm8 =? 0)%nat then Ok ([], s, Continue)
        else
          let cancel := if cancelled_once s then [] else [response_cancel] in
          let pcm24 := upsample_8k_to_24k pcm8 in
          let frames := frames_since_commit s + 1 in
          if frames * TWILIO_FRAME_MS >=? MIN_COMMIT_MS then
            Ok (cancel ++ [input_audio_buffer_append pcm24; input_audio_buffer_commit],
                {| frames_since_commit := 0;
                   stream_sid := stream_sid s;
                   cancelled_once := true |}, Continue)
          else
            Ok (cancel ++ [input_audio_buffer_append pcm24],
                {| frames_since_commit := frames;
                   stream_sid := stream_sid s;
                   cancelled_once := true |}, Continue)
  end.

(** Where a pump stands after the messages it was given. *)
Inductive pump_status : Type :=
| Running     (* awaiting the next message *)
| Finished    (* the loop was left *)
| Failed.     (* an exception left the coroutine *)

(** [twilio_to_openai], lines 188-232, on the messages received. *)
Fixpoint twilio_to_openai (s : call_state) (inputs : list ws_input)
  : list directive * call_state * pump_status :=
  match inputs with
  | [] => ([], s, Running)
  | raw :: rest =>
      match twilio_to_openai_iter s raw with
      | Exn => ([], s, Failed)
      | Ok (sent, s', Break) => (sent, s', Finished)
      | Ok (sent, s', Continue) =>
          let '(sent', s'', status) := twilio_to_openai s' rest in
          (sent ++ sent', s'', status)
      end
  end.

(** The mu-law bytes an audio delta is converted to, lines 242-244. *)
Definition delta_payload (evt : json) : result (list Z) :=
  do audio <- index evt "audio";
  do bytes <- b64decode_value audio;
  do pcm24 <- frombuffer_int16 bytes;
  let pcm8 := downsample_24k_to_8k pcm24 in
  Ok (pcm16_to_mulaw pcm8).

(** One iteration of [openai_to_twilio], lines 236-257. *)
Definition openai_to_twilio_iter (sid : json) (msg : oa_msg)
  : result (list media_event * loop) :=
  match msg with
  | oa_closed => Ok ([], Break)
  | oa_text parsed =>
      do evt <- parsed;
      do ty <- get evt "type";
      if eq_str ty "response.audio.delta" then
        do ulaw <- delta_payload evt;
        if negb (truthy sid) || (length ulaw =? 0)%nat then Ok ([], Continue)
        else Ok ([ {| ev_streamSid := sid; ev_payload := ulaw |} ], Continue)
      else Ok ([], Continue)
  | oa_error => Ok ([], Continue)
  | oa_other => Ok ([], Continue)
  end.

(** [openai_to_twilio] under a stream identifier that does not change. *)
Fixpoint openai_to_twilio (sid : json) (msgs : list oa_msg)
  : list media_event * pump_status :=
  match msgs with
  | [] => ([], Running)
  | msg :: rest =>
      match openai_to_twilio_iter sid msg with
      | Exn => ([], Failed)
      | Ok (sent, Break) => (sent, Finished)
      | Ok (sent, Continue) =>
          let '(sent', status) := openai_to_twilio sid rest in
          (sent ++ sent', status)
      end
  end.

(** *** [asyncio.gather] of the two pumps *)

(** The two coroutines over the shared variables. *)
Record bridge : Type := {
  call : call_state;
  inbound : pump_status;
  outbound : pump_status
}.

(** A message of the schedule: from Twilio or from OpenAI. *)
Definition arrival : Type := (ws_input + oa_msg)%type.

(** The next message is handed to the pump that awaits it; a pump that
    has left its loop receives nothing more. *)
Definition bridge_step (b : bridge) (item : arrival)
  : list directive * list media_event * bridge :=
  match item with
  | inl raw =>
      match inbound b with
      | Running =>
          match twilio_to_openai_iter (call b) raw with
          | Exn => ([], [], {| call := call b; inbound := Failed; outbound := outbound b |})
          | Ok (sent, s', Break) =>
              (sent, [], {| call := s'; inbound := Finished; outbound := outbound b |})
          | Ok (sent, s', Continue) =>
              (sent, [], {| call := s'; inbound := Running; outbound := outbound b |})
          end
      | _ => ([], [], b)
      end
  | inr msg =>
      match outbound b with
      | Running =>
          match openai_to_twilio_iter (stream_sid (call b)) msg with
          | Exn => ([], [], {| call := call b; inbound := inbound b; outbound := Failed |})
          | Ok (sent, Break) =>
              ([], sent, {| call := call b; inbound := inbound b; outbound := Finished |})
          | Ok (sent, Continue) =>
              ([], sent, {| call := call b; inbound := inbound b; outbound := Running |})
          end
      | _ => ([], [], b)
      end
  end.

(** [gather] returns once both pumps have finished and raises as soon
    as one fails; either way the handler leaves the [async with] block. *)
Definition gather_over (b : bridge) : bool :=
  match inbound b, outbound b with
  | Failed, _ | _, Failed => true
  | Finished, Finished => true
  | _, _ => false
  end.

Fixpoint gather (b : bridge) (schedule : list arrival)
  : list directive * list media_event * bridge :=
  match schedule with
  | [] => ([], [], b)
  | item :: rest =>
      if gather_over b then ([], [], b)
      else
        let '(up, down, b') := bridge_step b item in
        let '(up', down', b'') := gather b' rest in
        (up ++ up', down ++ down', b'')
  end.

(** *** The handler *)

(** What the handler reads from its surroundings. *)
Record environment : Type := {
  OPENAI_API_KEY : option string;   (* [os.getenv] *)
  SYSTEM_PROMPT : string;
  OPENAI_VOICE : string;
  connects : bool                   (* [session.ws_connect] returns *)
}.

(** [not OPENAI_API_KEY]. *)
Definition key_missing (env : environment) : bool :=
  match OPENAI_API_KEY env with
  | None => true
  | Some k => String.eqb k ""
  end.

(** Calls on the Twilio socket. *)
Inductive ws_action : Type :=
| ws_accept
| ws_close
| ws_send_text (e : media_event).

(** What one run of the handler did. *)
Record call_log : Type := {
  telephony : list ws_action;     (* calls on [ws], in order *)
  upstream : list directive;      (* [oa.send_str], in order *)
  pumps_started : bool;           (* [asyncio.gather] was reached *)
  pumps : bridge
}.

Definition initial_bridge : bridge :=
  {| call := initial_state; inbound := Running; outbound := Running |}.

(** [media_stream], lines 134-262. *)
Definition media_stream (env : environment) (schedule : list arrival) : call_log :=
  if key_missing env then
    {| telephony := [ws_accept; ws_close];
       upstream := [];
       pumps_started := false;
       pumps := initial_bridge |}
  else if negb (connects env) then
    {| telephony := [ws_accept];
       upstream := [];
       pumps_started := false;
       pumps := initial_bridge |}
  else
    let '(up, down, b) := gather initial_bridge schedule in
    {| telephony := ws_accept :: map ws_send_text down;
       upstream := session_update (SYSTEM_PROMPT env) (OPENAI_VOICE env)
                   :: response_create (OPENAI_VOICE env) :: up;
       pumps_started := true;
       pumps := b |}.

End Pumps.

(** *** Observations on a trace *)

Definition is_append (d : directive) : bool :=
  match d with input_audio_buffer_append _ => true | _ => false end.
Definition is_commit (d : directive) : bool :=
  match d with input_audio_buffer_commit => true | _ => false end.
Definition is_cancel (d : directive) : bool :=
  match d with response_cancel => true | _ => false end.
Definition is_session_update (d : directive) : bool :=
  match d with session_update _ _ => true | _ => false end.
Definition is_send (a : ws_action) : bool :=
  match a with ws_send_text _ => true | _ => false end.

Definition count {A} (p : A -> bool) (l : list A) : nat := length (filter p l).

(** *** The connection as the caller's side sees it

    [media_stream] is the endpoint of an ASGI server. The caller's side
    sees the calls the handler makes on [ws], and the connection closed:
    by [ws.close()] where the handler calls it, by the server when the
    handler returns with the connection still open. *)





End Bridge.

Import Bridge.

(** ** Implementations of the library interfaces *)

Module Library.

(** *** Arithmetic without rounding: the reals *)

Definition R_sign (x : R) : R :=
  match total_order_T x 0 with
  | inleft (left _) => (-1)%R
  | inleft (right _) => 0%R
  | inright _ => 1%R
  end.

Definition R_clip (x lo hi : R) : R := Rmin (Rmax x lo) hi.

(** Rounding toward zero. *)
Definition R_trunc (x : R) : Z :=
  if Rle_dec 0 x then Int_part x else - Int_part (- x).

#[export] Instance exact_reals : NumpyFloat := {|
  F := R;
  f_of_int := IZR;
  f_add := Rplus;
  f_sub := Rminus;
  f_mul := Rmult;
  f_div := Rdiv;
  f_pow := Rpower;
  f_log1p := fun x => ln (1 + x);
  f_sign := R_sign;
  f_abs := Rabs;
  f_clip := R_clip;
  f_trunc := R_trunc
|}.

(** *** [binascii.a2b_base64] without [strict_mode] *)

(** [table_a2b_base64]. *)
Definition b64_digit (c : Z) : option Z :=
  if (65 <=? c) && (c <=? 90) then Some (c - 65)
  else if (97 <=? c) && (c <=? 122) then Some (c - 71)
  else if (48 <=? c) && (c <=? 57) then Some (c + 4)
  else if c =? 43 then Some 62
  else if c =? 47 then Some 63
  else None.

(** The decoding loop: [quad_pos] digits of the current group are read,
    [leftchar] holds the bits not yet written, [pads] counts the ['=']
    seen since the last digit. Other characters are skipped. *)
Fixpoint a2b_base64 (data : list Z) (quad_pos : nat) (leftchar : Z) (pads : nat)
  : result (list Z) :=
  match data with
  | [] => if (quad_pos =? 0)%nat then Ok [] else Exn
  | ch :: rest =>
      if ch =? 61 then
        if (2 <=? quad_pos)%nat then
          if (4 <=? quad_pos + S pads)%nat then Ok []
          else a2b_base64 rest quad_pos leftchar (S pads)
        else a2b_base64 rest quad_pos leftchar pads
      else
        match b64_digit ch with
        | None => a2b_base64 rest quad_pos leftchar pads
        | Some v =>
            match quad_pos with
            | 0%nat => a2b_base64 rest 1 v 0
            | 1%nat =>
                do tail <- a2b_base64 rest 2 (Z.land v 15) 0;
                Ok (Z.lor (Z.shiftl leftchar 2) (Z.shiftr v 4) :: tail)
            | 2%nat =>
                do tail <- a2b_base64 rest 3 (Z.land v 3) 0;
                Ok (Z.lor (Z.shiftl leftchar 4) (Z.shiftr v 2) :: tail)
            | _ =>
                do tail <- a2b_base64 rest 0 0 0;
                Ok (Z.lor (Z.shiftl leftchar 6) v :: tail)
            end
        end
  end.

(** [s.encode("ascii")]: a [ValueError] on a character above 127. *)
Fixpoint encode_ascii (s : string) : result (list Z) :=
  match s with
  | EmptyString => Ok []
  | String c rest =>
      let n := Z.of_nat (nat_of_ascii c) in
      if n <? 128 then do tail <- encode_ascii rest; Ok (n :: tail) else Exn
  end.

#[export] Instance cpython_base64 : Base64 := {|
  b64decode := fun s => do data <- encode_ascii s; a2b_base64 data 0 0 0
|}.

End Library.

Import Library.

(** ** The stream URL of the TwiML webhook *)

Module Urls.

(** [s.replace(old, new)] for a non-empty [old]: the occurrences of [old]
    are found from the left and do not overlap. [skip] characters of an
    occurrence that was just replaced are still to be passed over. *)
Fixpoint replace_from (skip : nat) (old new s : string) : string :=
  match s with
  | EmptyString => EmptyString
  | String c rest =>
      match skip with
      | S k => replace_from k old new rest
      | O =>
          if String.prefix old s
          then String.append new (replace_from (String.length old - 1) old new rest)
          else String c (replace_from 0 old new rest)
      end
  end.

Definition str_replace (old new s : string) : string := replace_from 0 old new s.

(** [s.rstrip(ch)] for a single character. *)
Fixpoint rstrip (ch : ascii) (s : string) : string :=
  match s with
  | EmptyString => EmptyString
  | String c rest =>
      match rstrip ch rest with
      | EmptyString => if Ascii.eqb c ch then EmptyString else String c EmptyString
      | kept => String c kept
      end
  end.

(** [to_wss], lines 49-51. *)
Definition to_wss (url : string) : string :=
  str_replace "http://" "ws://" (str_replace "https://" "wss://" url).

(** The headers of a request, names in lower case as the server hands
    them over; [headers.get(name, default)]. *)
Fixpoint headers_get (name : string) (headers : list (string * string))
  (default : string) : string :=
  match headers with
  | [] => default
  | (k, v) :: rest => if String.eqb k name then v else headers_get name rest default
  end.

(** [stream_url_from_request], lines 54-60; [PUBLIC_URL] is what
    [os.getenv] gave. *)
Definition stream_url_from_request (PUBLIC_URL : option string)
  (headers : list (string * string)) : string :=
  let from_host :=
    let host := headers_get "host" headers "" in
    let base := if negb (String.prefix "http" host)
                then String.append "https://" host else host in
    to_wss (String.append base "/media-stream") in
  match PUBLIC_URL with
  | Some url =>
      if String.eqb url "" then from_host
      else to_wss (String.append (rstrip "/" url) "/media-stream")
  | None => from_host
  end.

(** [sub in s]. *)
Fixpoint occurs (sub s : string) : bool :=
  String.prefix sub s
  || match s with
     | EmptyString => false
     | String _ rest => occurs sub rest
     end.

(** [c in s] for a character. *)
Fixpoint has_char (c : ascii) (s : string) : bool :=
  match s with
  | EmptyString => false
  | String d rest => Ascii.eqb c d || has_char c rest
  end.

End Urls.

Import Urls.

(** ** Vocabulary of the properties *)

Section Vocabulary.
Context {fl : NumpyFloat} {b64 : Base64}.

(** The parts of a run of the inbound pump. *)
Definition sent_by (r : list directive * call_state * pump_status) : list directive :=
  fst (fst r).
Definition state_after (r : list directive * call_state * pump_status) : call_state :=
  snd (fst r).
Definition status_after (r : list directive * call_state * pump_status) : pump_status :=
  snd r.

(** What an iteration sent, nothing when it raised. *)
Definition emitted {A B} (r : result (list A * B)) : list A :=
  match r with
  | Ok (sent, _) => sent
  | Exn => []
  end.

(** The message is dropped: nothing is sent, nothing changes, the loop
    goes on. *)
Definition dropped (s : call_state) (raw : ws_input) : Prop :=
  twilio_to_openai_iter s raw = Ok ([], s, Continue).

(** An inbound audio frame of non-zero decoded length: a ["media"] event
    whose payload is a non-empty string that decodes to the bytes [ulaw],
    of which there is at least one. *)
Inductive audio_frame : ws_input -> list Z -> Prop :=
| audio_frame_intro (data media : json) (payload : string) (ulaw : list Z) :
    get data "event" = Ok (JStr "media") ->
    index data "media" = Ok media ->
    get media "payload" = Ok (JStr payload) ->
    payload <> ""%string ->
    b64decode payload = Ok ulaw ->
    ulaw <> [] ->
    audio_frame (ws_text (Ok data)) ulaw.

Definition carries_audio (raw : ws_input) : Prop := exists ulaw, audio_frame raw ulaw.

(** A ["stop"] event. *)
Definition stop_event (raw : ws_input) : Prop :=
  exists data, raw = ws_text (Ok data) /\ get data "event" = Ok (JStr "stop").

(** The message is a ["start"] event. *)
Definition is_start (raw : ws_input) : bool :=
  match raw with
  | ws_text (Ok data) =>
      match get data "event" with
      | Ok event => eq_str event "start"
      | Exn => false
      end
  | _ => false
  end.

Definition from_twilio_start (item : arrival) : bool :=
  match item with
  | inl raw => is_start raw
  | inr _ => false
  end.

(** An audio delta of the AI session. *)
Definition audio_delta (evt : json) : Prop :=
  get evt "type" = Ok (JStr "response.audio.delta").

End Vocabulary.

(** The events of the wire format of section 6. *)
Definition media_frame (payload : string) : ws_input :=
  ws_text (Ok (JObj [("event", JStr "media");
                     ("media", JObj [("payload", JStr payload)])]))%string.

Definition start_frame (sid : string) : ws_input :=
  ws_text (Ok (JObj [("event", JStr "start");
                     ("start", JObj [("streamSid", JStr sid)])]))%string.

Definition stop_frame : ws_input :=
  ws_text (Ok (JObj [("event", JStr "stop")]))%string.

Definition delta_msg (audio : string) : oa_msg :=
  oa_text (Ok (JObj [("type", JStr "response.audio.delta");
                     ("audio", JStr audio)]))%string.

(** What [gather] leaves on the two sockets. *)
Definition gather_up (r : list directive * list media_event * bridge) : list directive :=
  fst (fst r).
Definition gather_down (r : list directive * list media_event * bridge) : list media_event :=
  snd (fst r).

(** Calls to run the pumps on: a frame of the one byte [0xFF], a start
    event without its stream identifier, an event of a kind that is not
    known, three samples of AI audio, and the handler's surroundings. *)
Definition ff_frame : ws_input := media_frame "/w==".

Definition bare_start_frame : ws_input :=
  ws_text (Ok (JObj [("event", JStr "start"); ("start", JObj [])]))%string.

Definition mark_frame : ws_input :=
  ws_text (Ok (JObj [("event", JStr "mark")]))%string.

Definition three_samples : oa_msg := delta_msg "AAABAAIA".

Definition test_env (connects : bool) : environment :=
  {| OPENAI_API_KEY := Some "sk-test"%string;
     SYSTEM_PROMPT := "You are a warm, efficient dental receptionist named Sophie."%string;
     OPENAI_VOICE := "verse"%string;
     connects := connects |}.


(** *** The commit schedule *)

(** Appends and commits of a trace, in order. *)
Inductive mark : Type :=
| append_mark
| commit_mark.

Definition audio_marks (sent : list directive) : list mark :=
  flat_map (fun d => match d with
                     | input_audio_buffer_append _ => [append_mark]
                     | input_audio_buffer_commit => [commit_mark]
                     | _ => []
                     end) sent.

(** [ceil(m / d)] frames of [d] ms reach [m] ms. *)
Definition ceil_div (m d : Z) : Z := (m + d - 1) / d.

Definition commit_period : nat := Z.to_nat (ceil_div MIN_COMMIT_MS TWILIO_FRAME_MS).

(** One commit after every [period]-th frame, and nowhere else: the
    marks of the frames numbered [first], [first + 1], ... *)
Definition commit_schedule (period first frames : nat) : list mark :=
  flat_map (fun k => if (k mod period =? 0)%nat
                     then [append_mark; commit_mark]
                     else [append_mark])
           (seq first frames).

(** The appends that follow the last commit of a trace, counted on top
    of [pending] earlier ones. *)
Fixpoint pending_appends (pending : nat) (sent : list directive) : nat :=
  match sent with
  | [] => pending
  | input_audio_buffer_commit :: rest => pending_appends 0 rest
  | input_audio_buffer_append _ :: rest => pending_appends (S pending) rest
  | _ :: rest => pending_appends pending rest
  end.

(** *** What an audio frame does to the state *)

Definition cancel_of (s : call_state) : list directive :=
  if cancelled_once s then [] else [response_cancel].

Definition commit_due (s : call_state) : bool :=
  (frames_since_commit s + 1) * TWILIO_FRAME_MS >=? MIN_COMMIT_MS.

Definition commit_of (s : call_state) : list directive :=
  if commit_due s then [input_audio_buffer_commit] else [].

Definition after_audio (s : call_state) : call_state :=
  {| frames_since_commit := if commit_due s then 0 else frames_since_commit s + 1;
     stream_sid := stream_sid s;
     cancelled_once := true |}.

Definition with_sid (s : call_state) (sid : json) : call_state :=
  {| frames_since_commit := frames_since_commit s;
     stream_sid := sid;
     cancelled_once := cancelled_once s |}.

(** *** The shapes of an iteration of the inbound pump *)

Section Iterations.
Context {fl : NumpyFloat} {b64 : Base64}.

(** The five ways an iteration of [twilio_to_openai] can end. *)
Inductive iteration (s : call_state)
  : result (list directive * call_state * loop) -> Prop :=
| iter_raise : iteration s Exn
| iter_skip : iteration s (Ok ([], s, Continue))
| iter_start sid : iteration s (Ok ([], with_sid s sid, Continue))
| iter_stop : iteration s (Ok ([], s, Break))
| iter_audio pcm24 :
    iteration s (Ok (cancel_of s ++ input_audio_buffer_append pcm24 :: commit_of s,
                     after_audio s, Continue)).

End Iterations.

(** *** Vocabulary of the further properties *)

Section MoreVocabulary.
Context {fl : NumpyFloat} {b64 : Base64}.

(** The audio of the appends of a trace, in order. *)
Definition appended (sent : list directive) : list (list Z) :=
  flat_map (fun d => match d with
                     | input_audio_buffer_append audio => [audio]
                     | _ => []
                     end) sent.

(** A message the inbound pump passes over in every state: nothing is
    sent and the loop goes on. *)
Definition passed_over (raw : ws_input) : Prop :=
  forall s, exists s', twilio_to_openai_iter s raw = Ok ([], s', Continue).

(** The mu-law bytes of the audio frames among the messages, in order. *)
Inductive frames_of : list ws_input -> list (list Z) -> Prop :=
| frames_nil : frames_of [] []
| frames_audio raw ulaw rest frames :
    audio_frame raw ulaw -> frames_of rest frames ->
    frames_of (raw :: rest) (ulaw :: frames)
| frames_other raw rest frames :
    passed_over raw -> frames_of rest frames ->
    frames_of (raw :: rest) frames.

(** An audio delta that carries the samples [pcm24]. *)
Definition delta_of (msg : oa_msg) (pcm24 : list Z) : Prop :=
  exists evt audio bytes,
    msg = oa_text (Ok evt)
    /\ audio_delta evt
    /\ index evt "audio" = Ok (JStr audio)
    /\ b64decode audio = Ok bytes
    /\ frombuffer_int16 bytes = Ok pcm24.

(** A start event that names the stream [sid]. *)
Definition start_of (raw : ws_input) (sid : json) : Prop :=
  exists data start,
    raw = ws_text (Ok data)
    /\ get data "event" = Ok (JStr "start")
    /\ index data "start" = Ok start
    /\ index start "streamSid" = Ok sid.

(** The media event an audio delta is turned into. *)
Definition media_of (sid : json) (pcm24 : list Z) : media_event :=
  {| ev_streamSid := sid; ev_payload := pcm16_to_mulaw (downsample_24k_to_8k pcm24) |}.

(** The directive is one the inbound pump sends. *)
Definition from_inbound_pump (d : directive) : bool :=
  is_cancel d || is_append d || is_commit d.

(** A media event that can be delivered: it names a stream and carries
    at least one byte, and bytes only. *)
Definition deliverable (e : media_event) : Prop :=
  truthy (ev_streamSid e) = true
  /\ ev_payload e <> []
  /\ Forall is_uint8 (ev_payload e).

End MoreVocabulary.

(** * Properties *)

(** Reading the state out of the result of an iteration. *)
Ltac read_result :=
  let H := fresh in intros H; injection H as <- <- <-; reflexivity.

(** Comparing the event kind with the literals of the source. *)
Ltac eval_event := cbn [bind eq_str String.eqb Ascii.eqb Bool.eqb negb].

(** ** Fixed-width casts *)

Lemma int16_wrap_id (z : Z) : is_int16 z -> int16_wrap z = z.
Proof.
  unfold is_int16, int16_wrap. intros Hz.
  rewrite Z.mod_small by lia. lia.
Qed.

Lemma int16_wrap_range (z : Z) : is_int16 (int16_wrap z).
Proof.
  unfold is_int16, int16_wrap.
  pose proof (Z.mod_pos_bound (z + 32768) 65536 ltac:(lia)). lia.
Qed.

Lemma map_int16_wrap_id (x : list Z) : Forall is_int16 x -> map int16_wrap x = x.
Proof.
  induction 1 as [|s x Hs _ IH]; simpl; [reflexivity|].
  now rewrite int16_wrap_id, IH.
Qed.

(** ** Resampling *)

Section Resampling.

(** Lists taken three elements at a time. *)
Lemma list_ind3 (P : list Z -> Prop) :
  P [] -> (forall a, P [a]) -> (forall a b, P [a; b]) ->
  (forall a b c l, P l -> P (a :: b :: c :: l)) ->
  forall l, P l.
Proof.
  intros H0 H1 H2 H3 l.
  assert (H : P l /\ (forall a, P (a :: l)) /\ (forall a b, P (a :: b :: l))).
  { induction l as [|x l (IHa & IHb & IHc)]; [now auto|].
    repeat split; auto. }
  exact (proj1 H).
Qed.

Lemma div3_step (n : nat) : (S (S (S n)) / 3 = S (n / 3))%nat.
Proof.
  change (S (S (S n))) with (3 + n)%nat.
  replace (3 + n)%nat with (n + 1 * 3)%nat by lia.
  rewrite Nat.div_add by lia. lia.
Qed.

Lemma length_reshape3 (a : list Z) : length (reshape3 a) = (length a / 3)%nat.
Proof.
  induction a as [| x | x y | x y z l IH] using list_ind3; try reflexivity.
  cbn [reshape3 length]. now rewrite div3_step, IH.
Qed.

(** A trailing block of fewer than three samples is not read. *)
Lemma reshape3_firstn (a : list Z) :
  reshape3 (firstn (length a / 3 * 3) a) = reshape3 a.
Proof.
  induction a as [| x | x y | x y z l IH] using list_ind3; try reflexivity.
  cbn [length]. rewrite div3_step.
  change (S (length l / 3) * 3)%nat with (S (S (S (length l / 3 * 3)))).
  cbn [firstn reshape3]. now rewrite IH.
Qed.

Lemma reshape3_app (a tail : list Z) :
  (length a mod 3 = 0)%nat -> (length tail < 3)%nat ->
  reshape3 (a ++ tail) = reshape3 a.
Proof.
  induction a as [| x | x y | x y z l IH] using list_ind3; intros Hm Ht.
  - destruct tail as [|p [|q [|r tail]]]; try reflexivity. simpl in Ht. lia.
  - discriminate Hm.
  - discriminate Hm.
  - cbn [app reshape3]. rewrite IH; [reflexivity| |assumption].
    cbn [length] in Hm.
    change (S (S (S (length l)))) with (3 + length l)%nat in Hm.
    replace (3 + length l)%nat with (length l + 1 * 3)%nat in Hm by lia.
    now rewrite Nat.Div0.mod_add in Hm.
Qed.

(** The trimming of [downsample_24k_to_8k] only spares [reshape3] work. *)
Lemma downsample_blocks (a : list Z) :
  downsample_24k_to_8k a = map mean3_int16 (reshape3 a).
Proof.
  unfold downsample_24k_to_8k.
  destruct (Nat.eqb_spec (length a) 0) as [H0|H0].
  { destruct a; [reflexivity|discriminate]. }
  pose proof (Nat.Div0.mul_div_le (length a) 3) as Hle.
  assert (Hk : (length a - (length a - length a / 3 * 3) = length a / 3 * 3)%nat) by lia.
  destruct (Nat.eqb_spec (length a - length a / 3 * 3) 0) as [Ht|Ht].
  - destruct (Nat.eqb_spec (length a) 0); [contradiction|reflexivity].
  - rewrite Hk.
    destruct (Nat.eqb_spec (length (firstn (length a / 3 * 3) a)) 0) as [He|He].
    + rewrite length_firstn in He.
      assert (Hd : (length a / 3 = 0)%nat) by lia.
      rewrite Hd. cbn [Nat.mul firstn].
      rewrite <- (reshape3_firstn a), Hd. reflexivity.
    + now rewrite reshape3_firstn.
Qed.

Lemma length_np_repeat3 (a : list Z) : length (np_repeat3 a) = (3 * length a)%nat.
Proof.
  unfold np_repeat3. induction a as [|s a IH]; [reflexivity|].
  cbn [flat_map app length]. rewrite IH. lia.
Qed.

Lemma nth_np_repeat3 (a : list Z) (i : nat) :
  nth i (np_repeat3 a) 0 = nth (i / 3) a 0.
Proof.
  unfold np_repeat3. revert i.
  induction a as [|s a IH]; intros i.
  - cbn [flat_map]. generalize (i / 3)%nat. intros j. now destruct i, j.
  - destruct i as [|[|[|i]]]; try reflexivity.
    rewrite div3_step. cbn [flat_map app nth]. apply IH.
Qed.

Lemma reshape3_np_repeat3 (a : list Z) :
  reshape3 (np_repeat3 a) = map (fun s => (s, s, s)) a.
Proof.
  unfold np_repeat3. induction a as [|s a IH]; [reflexivity|].
  cbn [flat_map app reshape3 map]. now rewrite IH.
Qed.

Lemma np_repeat3_int16 (x : list Z) :
  Forall is_int16 x -> Forall is_int16 (np_repeat3 x).
Proof.
  unfold np_repeat3. induction 1 as [|s x Hs _ IH]; [constructor|].
  cbn [flat_map app]. repeat (constructor; [exact Hs|]). exact IH.
Qed.

Lemma upsample_repeat (x : list Z) :
  Forall is_int16 x -> upsample_8k_to_24k x = np_repeat3 x.
Proof.
  intros Hx. unfold upsample_8k_to_24k.
  destruct (Nat.eqb_spec (length x) 0) as [H0|H0].
  - destruct x; [reflexivity|discriminate].
  - now apply map_int16_wrap_id, np_repeat3_int16.
Qed.

(** C4. For 16-bit samples [x] and the factor 3 of the implementation:
    [upsample_8k_to_24k x] has length [3 * len x] and holds each sample of
    [x] three times in order; [downsample_24k_to_8k x] has length
    [len x / 3] (rounded down), and a trailing block of fewer than three
    samples changes nothing in its result; and downsampling the upsampled
    [x] gives back [x], sample for sample. *)
Theorem resample_lengths_and_roundtrip (x : list Z) :
  Forall is_int16 x ->
  length (upsample_8k_to_24k x) = (length x * 3)%nat
  /\ upsample_8k_to_24k x = flat_map (fun s => [s; s; s]) x
  /\ (forall i, nth i (upsample_8k_to_24k x) 0 = nth (i / 3) x 0)
  /\ length (downsample_24k_to_8k x) = (length x / 3)%nat
  /\ (forall tail, (length tail < 3)%nat ->
        downsample_24k_to_8k (firstn (length x / 3 * 3) x ++ tail)
        = downsample_24k_to_8k x)
  /\ downsample_24k_to_8k (upsample_8k_to_24k x) = x.
Proof.
  intros Hx. rewrite (upsample_repeat Hx).
  repeat split.
  - rewrite length_np_repeat3. lia.
  - intros i. apply nth_np_repeat3.
  - now rewrite downsample_blocks, length_map, length_reshape3.
  - intros tail Ht. rewrite !downsample_blocks. f_equal.
    rewrite reshape3_app, reshape3_firstn; [reflexivity| |assumption].
    rewrite length_firstn.
    pose proof (Nat.Div0.mul_div_le (length x) 3).
    replace (Nat.min (length x / 3 * 3) (length x)) with (length x / 3 * 3)%nat by lia.
    apply Nat.Div0.mod_mul.
  - rewrite downsample_blocks, reshape3_np_repeat3, map_map.
    induction Hx as [|s x Hs _ IH]; [reflexivity|].
    cbn [map]. rewrite IH. f_equal.
    unfold mean3_int16.
    replace (s + s + s) with (s * 3) by lia.
    rewrite Z.quot_mul by lia. now apply int16_wrap_id.
Qed.

(** The theorem at a frame of four samples. *)
Lemma resample_lengths_and_roundtrip_witness :
  Forall is_int16 [0; -32768; 32767; 5]
  /\ downsample_24k_to_8k (upsample_8k_to_24k [0; -32768; 32767; 5])
     = [0; -32768; 32767; 5].
Proof.
  assert (H : Forall is_int16 [0; -32768; 32767; 5]).
  { repeat constructor; unfold is_int16; lia. }
  split; [exact H|].
  exact (proj2 (proj2 (proj2 (proj2 (proj2 (resample_lengths_and_roundtrip H)))))).
Defined.

End Resampling.

(** ** Companding *)

Section CompandingFacts.
Context {fl : NumpyFloat}.

Lemma arr_times_map {A} (f g : A -> F) (a : list A) :
  arr_times (map f a) (map g a) = map (fun v => f_mul (f v) (g v)) a.
Proof. induction a as [|v a IH]; [reflexivity|]. cbn. now rewrite IH. Qed.

(** The whole-array pipeline of the source is the per-byte pipeline. *)
Lemma decode_pipeline (mu : list Z) :
  astype_int16
    (map (fun v => f_clip v (f_of_int (-32768)) (f_of_int 32767))
       (arr_mul
          (arr_div
             (arr_times
                (map f_sign
                   (arr_sub (arr_mul (arr_div (astype_float (xor_ff mu)) (f_of_int 255))
                                     (f_of_int 2)) (f_of_int 1)))
                (arr_sub
                   (scalar_pow (f_add (f_of_int 1) (f_of_int 255))
                      (map f_abs
                         (arr_sub (arr_mul (arr_div (astype_float (xor_ff mu)) (f_of_int 255))
                                           (f_of_int 2)) (f_of_int 1))))
                   (f_of_int 1)))
             (f_of_int 255))
          (f_of_int 32768)))
  = compand_decode_spec mu.
Proof.
  unfold astype_int16, arr_mul, arr_div, arr_sub, scalar_pow, astype_float, xor_ff,
    compand_decode_spec.
  rewrite !map_map, arr_times_map, !map_map.
  reflexivity.
Qed.

Lemma length_mulaw_to_pcm16 (mu : list Z) :
  length (mulaw_to_pcm16 mu) = length mu.
Proof.
  unfold mulaw_to_pcm16. destruct mu as [|b mu]; [reflexivity|].
  cbv zeta. change (length (b :: mu) =? 0)%nat with false. cbv iota.
  rewrite decode_pipeline. apply length_map.
Qed.

Lemma length_pcm16_to_mulaw (samples : list Z) :
  length (pcm16_to_mulaw samples) = length samples.
Proof.
  unfold pcm16_to_mulaw. destruct samples as [|v samples]; [reflexivity|].
  cbv zeta. change (length (v :: samples) =? 0)%nat with false. cbv iota.
  unfold xor_ff, astype_uint8, arr_mul, arr_div, arr_add, astype_float.
  rewrite !map_map, arr_times_map, !length_map. reflexivity.
Qed.

Lemma testbit_255 (i : Z) : 0 <= i < 8 -> Z.testbit 255 i = true.
Proof.
  intros Hi.
  assert (H : i = 0 \/ i = 1 \/ i = 2 \/ i = 3 \/ i = 4 \/ i = 5 \/ i = 6 \/ i = 7) by lia.
  repeat (destruct H as [-> | H]; [reflexivity|]). now subst.
Qed.

(** C6. For every sequence of 8-bit codes, [mulaw_to_pcm16] computes, for
    each input byte, the byte with all eight bits inverted ([b XOR 0xFF]),
    scaled to [-1, 1], passed through the inverse logarithmic curve
    [sign(y) * ((1 + mu)^|y| - 1) / mu] with [mu = 255], scaled to the
    16-bit range and clamped to [-32768, 32767]; the output has one 16-bit
    sample per input byte, and the empty input gives the empty output.
    This holds whatever the float primitives compute. *)
Theorem mulaw_to_pcm16_is_per_byte_decode (mu : list Z) :
  mulaw_to_pcm16 mu
  = map (fun b => int16_wrap (f_trunc (clamp_16bit (scale_to_16bit
                    (inverse_curve (scale_to_unit (invert_bits b))))))) mu
  /\ (forall b i, 0 <= i < 8 -> Z.testbit (invert_bits b) i = negb (Z.testbit b i))
  /\ (forall c, scale_to_unit c
                = f_sub (f_mul (f_div (f_of_int c) (f_of_int 255)) (f_of_int 2)) (f_of_int 1))
  /\ (forall y, inverse_curve y
                = f_div (f_mul (f_sign y)
                           (f_sub (f_pow (f_add (f_of_int 1) (f_of_int 255)) (f_abs y))
                                  (f_of_int 1)))
                        (f_of_int 255))
  /\ (forall x, clamp_16bit (scale_to_16bit x)
                = f_clip (f_mul x (f_of_int 32768)) (f_of_int (-32768)) (f_of_int 32767))
  /\ length (mulaw_to_pcm16 mu) = length mu
  /\ Forall is_int16 (mulaw_to_pcm16 mu)
  /\ mulaw_to_pcm16 [] = [].
Proof.
  assert (Heq : mulaw_to_pcm16 mu = compand_decode_spec mu).
  { unfold mulaw_to_pcm16. destruct mu as [|b mu]; [reflexivity|].
    cbv zeta. change (length (b :: mu) =? 0)%nat with false. cbv iota.
    apply decode_pipeline. }
  split; [exact Heq|].
  split.
  { intros b i Hi. unfold invert_bits.
    rewrite Z.lxor_spec, (testbit_255 Hi). now destruct (Z.testbit b i). }
  repeat split.
  - apply length_mulaw_to_pcm16.
  - rewrite Heq. unfold compand_decode_spec.
    apply Forall_forall. intros s Hs.
    apply in_map_iff in Hs. destruct Hs as (b & <- & _).
    apply int16_wrap_range.
Qed.

End CompandingFacts.

(** ** Companding in real arithmetic *)

Section ExactCompanding.

Lemma R_trunc_IZR (z : Z) : R_trunc (IZR z) = z.
Proof.
  unfold R_trunc. destruct (Rle_dec 0 (IZR z)) as [H|H].
  - symmetry. apply Int_part_spec. lra.
  - rewrite <- opp_IZR. rewrite <- (Int_part_spec (IZR (- z)) (- z)); [lia|lra].
Qed.

Lemma R_sign_pos (x : R) : (0 < x)%R -> R_sign x = 1%R.
Proof. intros H. unfold R_sign. destruct (total_order_T x 0) as [[H'|H']|H']; lra. Qed.

Lemma R_sign_neg (x : R) : (x < 0)%R -> R_sign x = (-1)%R.
Proof. intros H. unfold R_sign. destruct (total_order_T x 0) as [[H'|H']|H']; lra. Qed.

Lemma exact_scale_to_unit (c : Z) :
  @scale_to_unit exact_reals c = (IZR c / 255 * 2 - 1)%R.
Proof. reflexivity. Qed.

Lemma exact_curve_one : @inverse_curve exact_reals 1%R = 1%R.
Proof.
  unfold inverse_curve.
  cbn [f_mul f_div f_sub f_add f_pow f_sign f_abs f_of_int exact_reals F].
  rewrite Rabs_R1, Rpower_1, R_sign_pos by lra. lra.
Qed.

Lemma exact_curve_minus_one : @inverse_curve exact_reals (-1)%R = (-1)%R.
Proof.
  unfold inverse_curve.
  cbn [f_mul f_div f_sub f_add f_pow f_sign f_abs f_of_int exact_reals F].
  replace (Rabs (-1)) with 1%R by (unfold Rabs; destruct (Rcase_abs (-1)); lra).
  rewrite Rpower_1, R_sign_neg by lra. lra.
Qed.

(** The decoder at the two ends of the code range, in real arithmetic:
    the byte [0x00] reaches [+1], which scales to 32768 and is clamped to
    32767; the byte [0xFF] reaches [-1], which scales to -32768. *)
Lemma mulaw_to_pcm16_is_per_byte_decode_witness :
  @mulaw_to_pcm16 exact_reals [0; 255] = [32767; -32768].
Proof.
  rewrite (proj1 (@mulaw_to_pcm16_is_per_byte_decode exact_reals [0; 255])).
  cbn [map].
  replace (invert_bits 0) with 255 by reflexivity.
  replace (invert_bits 255) with 0 by reflexivity.
  rewrite !exact_scale_to_unit.
  replace (255 / 255 * 2 - 1)%R with 1%R by lra.
  replace (0 / 255 * 2 - 1)%R with (-1)%R by lra.
  rewrite exact_curve_one, exact_curve_minus_one.
  unfold clamp_16bit, scale_to_16bit.
  cbn [f_clip f_mul f_of_int f_trunc exact_reals F].
  unfold R_clip.
  replace (1 * 32768)%R with 32768%R by lra.
  replace (-1 * 32768)%R with (-32768)%R by lra.
  rewrite (Rmax_left 32768 (-32768)) by lra.
  rewrite (Rmin_right 32768 32767) by lra.
  rewrite (Rmax_left (-32768) (-32768)) by lra.
  rewrite (Rmin_left (-32768) 32767) by lra.
  rewrite !R_trunc_IZR. reflexivity.
Defined.

End ExactCompanding.

(** ** The inbound pump *)

Section InboundPump.
Context {fl : NumpyFloat} {b64 : Base64}.

Lemma iteration_cases (s : call_state) (raw : ws_input) :
  iteration s (twilio_to_openai_iter s raw).
Proof.
  unfold twilio_to_openai_iter.
  destruct raw as [[data|]|]; cbn [bind]; try constructor.
  destruct (get data "event") as [event|]; cbn [bind]; try constructor.
  destruct (eq_str event "connected"); [constructor|].
  destruct (eq_str event "start").
  { destruct (index data "start") as [start|]; cbn [bind]; try constructor.
    destruct (index start "streamSid") as [sid|]; cbn [bind]; constructor. }
  destruct (eq_str event "stop"); [constructor|].
  destruct (eq_str event "media"); cbn [negb]; [|constructor].
  destruct (index data "media") as [media|]; cbn [bind]; try constructor.
  destruct (get media "payload") as [payload|]; cbn [bind]; try constructor.
  destruct (truthy payload); cbn [negb]; [|constructor].
  destruct (b64decode_value payload) as [ulaw|]; cbn [bind]; try constructor.
  destruct (length (mulaw_to_pcm16 ulaw) =? 0)%nat; [constructor|].
  cbv zeta.
  pose proof (iter_audio s (upsample_8k_to_24k (mulaw_to_pcm16 ulaw))) as H.
  unfold commit_of, after_audio, commit_due, cancel_of in H.
  destruct ((frames_since_commit s + 1) * TWILIO_FRAME_MS >=? MIN_COMMIT_MS); exact H.
Qed.

(** Induction on the run of the pump. *)
Lemma pump_ind (P : call_state -> list directive -> call_state -> pump_status -> Prop) :
  (forall s, P s [] s Running) ->
  (forall s, P s [] s Failed) ->
  (forall s, P s [] s Finished) ->
  (forall s sid sent s' st, P (with_sid s sid) sent s' st -> P s sent s' st) ->
  (forall s pcm24 sent s' st,
      P (after_audio s) sent s' st ->
      P s ((cancel_of s ++ input_audio_buffer_append pcm24 :: commit_of s) ++ sent) s' st) ->
  forall s inputs,
    P s (sent_by (twilio_to_openai s inputs))
        (state_after (twilio_to_openai s inputs))
        (status_after (twilio_to_openai s inputs)).
Proof.
  intros Hrun Hfail Hstop Hstart Haudio s inputs. revert s.
  induction inputs as [|raw rest IH]; intros s; [apply Hrun|].
  cbn [twilio_to_openai].
  destruct (iteration_cases s raw) as [ | | sid | | pcm24].
  - apply Hfail.
  - specialize (IH s). destruct (twilio_to_openai s rest) as [[sent s'] st]. exact IH.
  - specialize (IH (with_sid s sid)).
    destruct (twilio_to_openai (with_sid s sid) rest) as [[sent s'] st].
    apply Hstart with sid. exact IH.
  - apply Hstop.
  - specialize (IH (after_audio s)).
    destruct (twilio_to_openai (after_audio s) rest) as [[sent s'] st].
    apply Haudio. exact IH.
Qed.

(** *** Counting on traces *)

Lemma count_app {A} (p : A -> bool) (l l' : list A) :
  count p (l ++ l') = (count p l + count p l')%nat.
Proof. unfold count. now rewrite filter_app, length_app. Qed.

Lemma audio_marks_app (l l' : list directive) :
  audio_marks (l ++ l') = audio_marks l ++ audio_marks l'.
Proof. unfold audio_marks. apply flat_map_app. Qed.

Lemma cancel_of_marks (s : call_state) :
  audio_marks (cancel_of s) = []
  /\ count is_append (cancel_of s) = 0%nat
  /\ count is_commit (cancel_of s) = 0%nat
  /\ count is_cancel (cancel_of s) = (if cancelled_once s then 0 else 1)%nat.
Proof. unfold cancel_of. now destruct (cancelled_once s). Qed.

Lemma commit_due_iff (s : call_state) :
  commit_due s = true <-> 5 <= frames_since_commit s.
Proof.
  unfold commit_due, TWILIO_FRAME_MS, MIN_COMMIT_MS.
  destruct (Z.geb_spec ((frames_since_commit s + 1) * 20) 120); split; intros;
    solve [lia | discriminate | reflexivity].
Qed.

Lemma commit_period_is_6 : commit_period = 6%nat.
Proof. reflexivity. Qed.

(** Successor against quotient and remainder. *)
Lemma succ_div_mod (p n : nat) : (0 < p)%nat ->
  (n mod p = p - 1 /\ S n mod p = 0 /\ S n / p = S (n / p))%nat
  \/ (n mod p < p - 1 /\ S n mod p = S (n mod p) /\ S n / p = n / p)%nat.
Proof.
  intros Hp.
  pose proof (Nat.div_mod_eq n p) as Hn.
  pose proof (Nat.mod_upper_bound n p ltac:(lia)) as Hb.
  destruct (Nat.eq_dec (n mod p) (p - 1)) as [He|He].
  - left. split; [exact He|].
    assert (Hs : (S n = p * S (n / p) + 0)%nat) by nia.
    split.
    + symmetry. apply (Nat.mod_unique (S n) p (S (n / p)) 0); [lia|exact Hs].
    + symmetry. apply (Nat.div_unique (S n) p (S (n / p)) 0); [lia|exact Hs].
  - right. split; [lia|].
    assert (Hs : (S n = p * (n / p) + S (n mod p))%nat) by lia.
    split.
    + symmetry. apply (Nat.mod_unique (S n) p (n / p) (S (n mod p))); [lia|exact Hs].
    + symmetry. apply (Nat.div_unique (S n) p (n / p) (S (n mod p))); [lia|exact Hs].
Qed.

(** *** The commit schedule along a run *)

(** From a state whose counter is the remainder of [first] frames, the
    run continues the schedule at frame [first + 1]. *)
Lemma pump_follows_schedule (s : call_state) (inputs : list ws_input) (first : nat) :
  frames_since_commit s = Z.of_nat (first mod 6) ->
  let r := twilio_to_openai s inputs in
  let n := count is_append (sent_by r) in
  audio_marks (sent_by r) = commit_schedule 6 (S first) n
  /\ frames_since_commit (state_after r) = Z.of_nat ((first + n) mod 6)
  /\ (count is_commit (sent_by r) + first / 6 = (first + n) / 6)%nat
  /\ pending_appends (first mod 6) (sent_by r) = ((first + n) mod 6)%nat.
Proof.
  cbv zeta. revert first.
  apply (pump_ind (fun s sent s' st => forall first,
    frames_since_commit s = Z.of_nat (first mod 6) ->
    audio_marks sent = commit_schedule 6 (S first) (count is_append sent)
    /\ frames_since_commit s' = Z.of_nat ((first + count is_append sent) mod 6)
    /\ (count is_commit sent + first / 6 = (first + count is_append sent) / 6)%nat
    /\ pending_appends (first mod 6) sent = ((first + count is_append sent) mod 6)%nat));
    clear s inputs.
  1-3: intros s first Hs; cbn; rewrite Nat.add_0_r; auto.
  - intros s sid sent s' st IH first Hs. now apply IH.
  - intros s pcm24 sent s' st IH first Hs.
    destruct (cancel_of_marks s) as (Hm & Ha & Hc & _).
    assert (Hpend : forall k l, pending_appends k (cancel_of s ++ l) = pending_appends k l).
    { intros k l. unfold cancel_of. now destruct (cancelled_once s). }
    rewrite <- !app_assoc, <- app_comm_cons.
    rewrite Hpend, !audio_marks_app, !count_app, Hm, Ha, Hc. cbn [app Nat.add].
    change (input_audio_buffer_append pcm24 :: commit_of s ++ sent)
      with ([input_audio_buffer_append pcm24] ++ (commit_of s ++ sent)).
    rewrite !audio_marks_app, !count_app.
    change (count is_append [input_audio_buffer_append pcm24]) with 1%nat.
    change (count is_commit [input_audio_buffer_append pcm24]) with 0%nat.
    change (audio_marks [input_audio_buffer_append pcm24]) with [append_mark].
    cbn [app Nat.add pending_appends].
    specialize (IH (S first)).
    replace (first + S (count is_append (commit_of s) + count is_append sent))%nat
      with (S first + (count is_append (commit_of s) + count is_append sent))%nat by lia.
    unfold commit_schedule. cbn [seq flat_map]. fold (commit_schedule 6 (S (S first))).
    pose proof (commit_due_iff s) as Hdue.
    pose proof (Nat.mod_upper_bound first 6 ltac:(lia)) as Hb.
    unfold commit_of, after_audio in *. cbn [frames_since_commit] in IH.
    destruct (succ_div_mod (p := 6) first ltac:(lia)) as [(Hr & Hz & Hq) | (Hr & Hz & Hq)].
    + assert (Hd : commit_due s = true) by (apply Hdue; lia).
      rewrite Hd in *. rewrite Hz in *. cbn [Nat.eqb].
      destruct IH as (IHm & IHs & IHc & IHp); [reflexivity|].
      cbn [Nat.add] in IHs, IHc, IHp.
      change (count is_append [input_audio_buffer_commit]) with 0%nat.
      change (count is_commit [input_audio_buffer_commit]) with 1%nat.
      change (audio_marks [input_audio_buffer_commit]) with [commit_mark].
      cbn [app Nat.add pending_appends].
      rewrite IHm. repeat split; try assumption; try lia.
    + assert (Hd : commit_due s = false).
      { destruct (commit_due s); [|reflexivity]. assert (5 <= frames_since_commit s) by now apply Hdue. lia. }
      rewrite Hd in *. rewrite Hz in *. cbn [Nat.eqb].
      destruct IH as (IHm & IHs & IHc & IHp); [lia|].
      cbn [Nat.add] in IHs, IHc, IHp.
      cbn [app Nat.add count filter length audio_marks flat_map].
      rewrite IHm. repeat split; try assumption; try lia.
Qed.

(** *** Audio frames *)

Lemma audio_frame_iter (s : call_state) (raw : ws_input) (ulaw : list Z) :
  audio_frame raw ulaw ->
  twilio_to_openai_iter s raw
  = Ok (cancel_of s
          ++ input_audio_buffer_append (upsample_8k_to_24k (mulaw_to_pcm16 ulaw))
          :: commit_of s,
        after_audio s, Continue).
Proof.
  intros [data media payload bytes Hev Hmedia Hpay Hne Hdec Hbytes].
  unfold twilio_to_openai_iter. cbn [bind].
  rewrite Hev. cbn [bind eq_str String.eqb Ascii.eqb Bool.eqb negb].
  rewrite Hmedia. cbn [bind]. rewrite Hpay. cbn [bind truthy].
  destruct (String.eqb_spec payload "") as [He|_]; [contradiction|].
  cbn [negb b64decode_value]. rewrite Hdec. cbn [bind].
  rewrite length_mulaw_to_pcm16.
  destruct bytes as [|b bytes]; [contradiction|]. cbn [length Nat.eqb].
  unfold commit_of, after_audio, cancel_of, commit_due.
  destruct ((frames_since_commit s + 1) * TWILIO_FRAME_MS >=? MIN_COMMIT_MS); reflexivity.
Qed.

Lemma count_audio_iter (s : call_state) (pcm24 : list Z) :
  count is_append (cancel_of s ++ input_audio_buffer_append pcm24 :: commit_of s) = 1%nat
  /\ count is_cancel (cancel_of s ++ input_audio_buffer_append pcm24 :: commit_of s)
     = (if cancelled_once s then 0 else 1)%nat.
Proof.
  unfold cancel_of, commit_of.
  now destruct (cancelled_once s), (commit_due s).
Qed.

(** A run of audio frames only: none is lost, and the pump awaits more. *)
Lemma pump_on_audio (s : call_state) (inputs : list ws_input) :
  Forall carries_audio inputs ->
  count is_append (sent_by (twilio_to_openai s inputs)) = length inputs
  /\ status_after (twilio_to_openai s inputs) = Running.
Proof.
  intros Hall. revert s.
  induction Hall as [|raw rest [ulaw Hraw] _ IH]; intros s; [now split|].
  cbn [twilio_to_openai]. rewrite (audio_frame_iter s Hraw).
  specialize (IH (after_audio s)).
  destruct (twilio_to_openai (after_audio s) rest) as [[sent s'] st].
  unfold sent_by, state_after, status_after in *. cbn [fst snd] in *.
  destruct IH as [IHn IHs]. split; [|exact IHs].
  rewrite count_app, (proj1 (count_audio_iter s _)), IHn. reflexivity.
Qed.

(** What one iteration does to the counter. *)
Lemma iter_counter (s s1 : call_state) (raw : ws_input) (sent : list directive) (l : loop) :
  twilio_to_openai_iter s raw = Ok (sent, s1, l) ->
  0 <= frames_since_commit s ->
  0 <= frames_since_commit s1
  /\ (In input_audio_buffer_commit sent ->
      frames_since_commit s1 = 0
      /\ MIN_COMMIT_MS <= (frames_since_commit s + 1) * TWILIO_FRAME_MS
      /\ exists pcm24,
           sent = cancel_of s ++ [input_audio_buffer_append pcm24; input_audio_buffer_commit]).
Proof.
  intros Heq Hs. pose proof (iteration_cases s raw) as H. rewrite Heq in H.
  inversion H; subst; cbn [with_sid frames_since_commit];
    try (split; [assumption|intros []]).
  unfold after_audio, commit_of. cbn [frames_since_commit].
  pose proof (commit_due_iff s) as Hdue.
  destruct (commit_due s) eqn:Hd.
  - split; [lia|]. intros _. split; [reflexivity|].
    split; [|now exists pcm24].
    unfold MIN_COMMIT_MS, TWILIO_FRAME_MS. assert (5 <= frames_since_commit s) by now apply Hdue.
    lia.
  - split; [lia|]. intros Hin. exfalso.
    apply in_app_or in Hin. destruct Hin as [Hin|[Hin|[]]]; [|discriminate].
    unfold cancel_of in Hin. destruct (cancelled_once s); [destruct Hin|].
    destruct Hin as [Hin|[]]. discriminate.
Qed.

(** *** The pump inside the handler *)

(** A message from OpenAI sends nothing upstream and leaves the inbound
    pump and the shared variables as they are. *)
Lemma bridge_step_outbound (b : bridge) (msg : oa_msg) :
  exists down b',
    bridge_step b (inr msg) = ([], down, b')
    /\ call b' = call b /\ inbound b' = inbound b.
Proof.
  cbn [bridge_step]. destruct (outbound b); try (now exists [], b).
  destruct (openai_to_twilio_iter (stream_sid (call b)) msg) as [[sent [|]]|];
    eexists _, _; (split; [reflexivity|now split]).
Qed.

(** Upstream, [gather] sends what the inbound pump sends on the messages
    from Twilio it came to handle. *)
Lemma gather_runs_inbound_pump (b : bridge) (schedule : list arrival) :
  exists inputs,
    gather_up (gather b schedule)
    = match inbound b with
      | Running => sent_by (twilio_to_openai (call b) inputs)
      | _ => []
      end.
Proof.
  revert b. induction schedule as [|item rest IH]; intros b.
  { exists []. now destruct (inbound b). }
  cbn [gather]. destruct (gather_over b).
  { exists []. now destruct (inbound b). }
  destruct item as [raw|msg].
  - cbn [bridge_step]. destruct (inbound b) eqn:Hin.
    + destruct (twilio_to_openai_iter (call b) raw) as [[[sent s'] [|]]|] eqn:Heq.
      * destruct (IH {| call := s'; inbound := Running; outbound := outbound b |})
          as [inputs Hinputs].
        cbn [inbound call] in Hinputs.
        destruct (gather _ rest) as [[up' down'] b''].
        unfold gather_up in *. cbn [fst snd] in *.
        exists (raw :: inputs). cbn [twilio_to_openai]. rewrite Heq.
        destruct (twilio_to_openai s' inputs) as [[sent1 s1] st1].
        unfold sent_by in *. cbn [fst snd] in *. now rewrite Hinputs.
      * destruct (IH {| call := s'; inbound := Finished; outbound := outbound b |})
          as [inputs Hinputs].
        cbn [inbound call] in Hinputs.
        destruct (gather _ rest) as [[up' down'] b''].
        unfold gather_up in *. cbn [fst snd] in *.
        exists [raw]. cbn [twilio_to_openai]. rewrite Heq.
        unfold sent_by. cbn [fst snd]. now rewrite Hinputs, app_nil_r.
      * destruct (IH {| call := call b; inbound := Failed; outbound := outbound b |})
          as [inputs Hinputs].
        cbn [inbound call] in Hinputs.
        destruct (gather _ rest) as [[up' down'] b''].
        unfold gather_up in *. cbn [fst snd] in *.
        exists []. now rewrite Hinputs.
    + destruct (IH b) as [inputs Hinputs]. rewrite Hin in Hinputs.
      destruct (gather b rest) as [[up' down'] b''].
      unfold gather_up in *. cbn [fst snd] in *. exists []. now rewrite Hinputs.
    + destruct (IH b) as [inputs Hinputs]. rewrite Hin in Hinputs.
      destruct (gather b rest) as [[up' down'] b''].
      unfold gather_up in *. cbn [fst snd] in *. exists []. now rewrite Hinputs.
  - destruct (bridge_step_outbound b msg) as (down & b' & Hstep & Hcall & Hin).
    rewrite Hstep.
    destruct (IH b') as [inputs Hinputs]. rewrite Hcall, Hin in Hinputs.
    destruct (gather b' rest) as [[up' down'] b''].
    unfold gather_up in *. cbn [fst snd app] in *. now exists inputs.
Qed.

(** The handler sends nothing upstream, or the configuration, the
    greeting and then what the inbound pump sends. *)
Lemma media_stream_upstream (env : environment) (schedule : list arrival) :
  exists inputs,
    upstream (media_stream env schedule)
    = if key_missing env || negb (connects env) then []
      else session_update (SYSTEM_PROMPT env) (OPENAI_VOICE env)
           :: response_create (OPENAI_VOICE env)
           :: sent_by (twilio_to_openai initial_state inputs).
Proof.
  unfold media_stream. destruct (key_missing env); [now exists []|].
  destruct (connects env); cbn [negb orb]; [|now exists []].
  destruct (gather_runs_inbound_pump initial_bridge schedule) as [inputs Hinputs].
  cbn [initial_bridge inbound call] in Hinputs. unfold gather_up in Hinputs.
  destruct (gather initial_bridge schedule) as [[up down] b].
  cbn [fst snd upstream] in *. exists inputs. now rewrite Hinputs.
Qed.

(** The schedule from the state the handler starts with. *)
Lemma pump_schedule_from_start (inputs : list ws_input) :
  let r := twilio_to_openai initial_state inputs in
  let n := count is_append (sent_by r) in
  audio_marks (sent_by r) = commit_schedule 6 1 n
  /\ count is_commit (sent_by r) = (n / 6)%nat
  /\ frames_since_commit (state_after r) = Z.of_nat (n mod 6).
Proof.
  cbv zeta.
  destruct (@pump_follows_schedule initial_state inputs 0 eq_refl) as (Hm & Hs & Hc & _).
  cbn [Nat.add] in Hs, Hc. change (0 / 6)%nat with 0%nat in Hc. rewrite Nat.add_0_r in Hc.
  now repeat split.
Qed.

(** C1. In every run of the inbound pump, with 20 ms per frame and a
    minimum of 120 ms per commit ([ceil(120/20) = 6]): the appends and
    commits sent upstream are exactly one commit after every sixth
    appended frame and none elsewhere, so there are [n / 6] commits for [n]
    appended frames (and [n] is the number of frames received when all
    carry audio); the counter is [n mod 6] after the run and thus never
    negative; an iteration that commits does so directly after its append,
    with a counter that has reached the minimum (never on an empty
    accumulation), and leaves the counter at zero. The schedule holds for
    what every call of the handler sends upstream. *)
Theorem commit_once_every_six_frames (inputs : list ws_input) :
  let r := twilio_to_openai initial_state inputs in
  let n := count is_append (sent_by r) in
  ceil_div MIN_COMMIT_MS TWILIO_FRAME_MS = 6
  /\ audio_marks (sent_by r) = commit_schedule commit_period 1 n
  /\ count is_commit (sent_by r) = (n / commit_period)%nat
  /\ frames_since_commit (state_after r) = Z.of_nat (n mod commit_period)
  /\ 0 <= frames_since_commit (state_after r) < 6
  /\ (Forall carries_audio inputs -> n = length inputs)
  /\ (forall s s1 raw sent l,
        twilio_to_openai_iter s raw = Ok (sent, s1, l) ->
        0 <= frames_since_commit s ->
        0 <= frames_since_commit s1
        /\ (In input_audio_buffer_commit sent ->
            frames_since_commit s1 = 0
            /\ 0 < frames_since_commit s + 1
            /\ MIN_COMMIT_MS <= (frames_since_commit s + 1) * TWILIO_FRAME_MS
            /\ exists pcm24,
                 sent = cancel_of s
                        ++ [input_audio_buffer_append pcm24; input_audio_buffer_commit]))
  /\ (forall env schedule,
        let up := upstream (media_stream env schedule) in
        audio_marks up = commit_schedule commit_period 1 (count is_append up)
        /\ count is_commit up = (count is_append up / commit_period)%nat).
Proof.
  cbv zeta. rewrite commit_period_is_6.
  destruct (pump_schedule_from_start inputs) as (Hm & Hc & Hs).
  split; [reflexivity|]. split; [exact Hm|]. split; [exact Hc|]. split; [exact Hs|].
  split.
  { rewrite Hs.
    pose proof (Nat.mod_upper_bound
                  (count is_append (sent_by (twilio_to_openai initial_state inputs))) 6
                  ltac:(lia)).
    lia. }
  split.
  { intros Hall. now apply pump_on_audio. }
  split.
  { intros s s1 raw sent l Heq Hs0.
    destruct (@iter_counter _ _ _ _ _ Heq Hs0) as [H1 H2]. split; [exact H1|].
    intros Hin. destruct (H2 Hin) as (Hz & Hmin & Hex).
    repeat split; try assumption. lia. }
  intros env schedule.
  destruct (media_stream_upstream env schedule) as [handled ->].
  destruct (key_missing env || negb (connects env)); [now split|].
  destruct (pump_schedule_from_start handled) as (Hm' & Hc' & _).
  split; [exact Hm'|exact Hc'].
Qed.

(** *** The one-shot cancellation *)

Lemma pump_cancels (s : call_state) (inputs : list ws_input) :
  let r := twilio_to_openai s inputs in
  count is_cancel (sent_by r)
  = (if cancelled_once s then 0
     else if (count is_append (sent_by r) =? 0)%nat then 0 else 1)%nat
  /\ cancelled_once (state_after r)
     = cancelled_once s || negb (count is_append (sent_by r) =? 0)%nat
  /\ (cancelled_once s = false ->
      sent_by r = []
      \/ exists pcm24 rest,
           sent_by r = response_cancel :: input_audio_buffer_append pcm24 :: rest
           /\ count is_cancel rest = 0%nat).
Proof.
  cbv zeta.
  apply (pump_ind (fun s sent s' st =>
    count is_cancel sent
    = (if cancelled_once s then 0
       else if (count is_append sent =? 0)%nat then 0 else 1)%nat
    /\ cancelled_once s' = cancelled_once s || negb (count is_append sent =? 0)%nat
    /\ (cancelled_once s = false ->
        sent = []
        \/ exists pcm24 rest,
             sent = response_cancel :: input_audio_buffer_append pcm24 :: rest
             /\ count is_cancel rest = 0%nat)));
    clear s inputs.
  1-3: intros s; cbn; destruct (cancelled_once s); auto.
  - intros s sid sent s' st IH. exact IH.
  - intros s pcm24 sent s' st (IHc & IHf & _).
    cbn [after_audio cancelled_once] in IHc, IHf.
    destruct (count_audio_iter s pcm24) as [Ha Hc].
    set (X := cancel_of s ++ input_audio_buffer_append pcm24 :: commit_of s) in *.
    rewrite !count_app, Ha, Hc, IHc, IHf. cbn [Nat.add Nat.eqb negb orb].
    split; [destruct (cancelled_once s); reflexivity|].
    split; [now rewrite orb_true_r|].
    intros Hf. right. subst X. unfold cancel_of. rewrite Hf. cbn [app].
    exists pcm24, (commit_of s ++ sent). split; [reflexivity|].
    rewrite count_app, IHc. unfold commit_of. now destruct (commit_due s).
Qed.

(** C2. After the greeting the flag is unset ([initial_state]); then: a
    run sends one [response.cancel] if it appended at least one audio
    frame and none otherwise, so [N] inbound audio frames of non-zero
    decoded length give exactly one cancellation for every [N >= 1] and
    none for [N = 0]; the cancellation is the first directive of the pump
    and the append of the first such frame follows it directly; and once
    the flag is set it stays set, with no further cancellation, whatever
    arrives. In every call of the handler the directives sent upstream
    hold one cancellation if they hold an append, and none otherwise. *)
Theorem barge_in_cancels_exactly_once (inputs : list ws_input) :
  let r := twilio_to_openai initial_state inputs in
  count is_cancel (sent_by r)
  = (if (count is_append (sent_by r) =? 0)%nat then 0 else 1)%nat
  /\ (sent_by r = []
      \/ exists pcm24 rest,
           sent_by r = response_cancel :: input_audio_buffer_append pcm24 :: rest
           /\ count is_cancel rest = 0%nat)
  /\ cancelled_once (state_after r) = negb (count is_append (sent_by r) =? 0)%nat
  /\ (Forall carries_audio inputs ->
      count is_append (sent_by r) = length inputs
      /\ count is_cancel (sent_by r) = (if (length inputs =? 0)%nat then 0 else 1)%nat)
  /\ (forall raw ulaw rest,
        audio_frame raw ulaw ->
        exists more,
          sent_by (twilio_to_openai initial_state (raw :: rest))
          = response_cancel
            :: input_audio_buffer_append (upsample_8k_to_24k (mulaw_to_pcm16 ulaw))
            :: more)
  /\ (forall s more,
        cancelled_once s = true ->
        cancelled_once (state_after (twilio_to_openai s more)) = true
        /\ count is_cancel (sent_by (twilio_to_openai s more)) = 0%nat)
  /\ (forall env schedule,
        let up := upstream (media_stream env schedule) in
        count is_cancel up = (if (count is_append up =? 0)%nat then 0 else 1)%nat).
Proof.
  cbv zeta.
  destruct (pump_cancels initial_state inputs) as (Hc & Hf & Hshape).
  cbn [initial_state cancelled_once orb] in Hc, Hf, Hshape.
  split; [exact Hc|]. split; [now apply Hshape|]. split; [exact Hf|].
  split.
  { intros Hall. destruct (pump_on_audio initial_state Hall) as [Hn _].
    rewrite Hc, Hn. now split. }
  split.
  { intros raw ulaw rest Hraw. cbn [twilio_to_openai].
    rewrite (audio_frame_iter initial_state Hraw).
    destruct (twilio_to_openai (after_audio initial_state) rest) as [[sent s'] st].
    cbn. eexists. reflexivity. }
  split.
  { intros s more Hs. destruct (pump_cancels s more) as (Hc' & Hf' & _).
    rewrite Hs in Hc', Hf'. now split. }
  intros env schedule.
  destruct (media_stream_upstream env schedule) as [handled ->].
  destruct (key_missing env || negb (connects env)); [reflexivity|].
  exact (proj1 (pump_cancels initial_state handled)).
Qed.

(** *** The stop event *)

(** A run on [before ++ more] is the run on [before], continued on
    [more] if the pump still awaits a message. *)
Lemma pump_app (s : call_state) (before more : list ws_input) :
  twilio_to_openai s (before ++ more)
  = match status_after (twilio_to_openai s before) with
    | Running =>
        let r1 := twilio_to_openai s before in
        let r2 := twilio_to_openai (state_after r1) more in
        (sent_by r1 ++ sent_by r2, state_after r2, status_after r2)
    | _ => twilio_to_openai s before
    end.
Proof.
  revert s. induction before as [|raw before IH]; intros s.
  - cbn. now destruct (twilio_to_openai s more) as [[sent s'] st].
  - cbn [app twilio_to_openai].
    destruct (twilio_to_openai_iter s raw) as [[[sent s1] [|]]|]; try reflexivity.
    rewrite IH.
    destruct (twilio_to_openai s1 before) as [[sent1 s2] st1].
    unfold sent_by, state_after, status_after. cbn [fst snd].
    destruct st1; try reflexivity.
    destruct (twilio_to_openai s2 more) as [[sent2 s3] st2].
    cbn [fst snd]. now rewrite app_assoc.
Qed.

Lemma stop_iter (s : call_state) (raw : ws_input) :
  stop_event raw -> twilio_to_openai_iter s raw = Ok ([], s, Break).
Proof.
  intros (data & -> & Hev). unfold twilio_to_openai_iter. cbn [bind].
  rewrite Hev. reflexivity.
Qed.

(** C10. When a stop event ends the inbound pump while the counter of
    frames since the last commit is not zero: the pump has sent exactly
    what it had sent before the stop event, so no final commit and nothing
    after the stop, whatever arrives later; the appends that follow the
    last commit, as many as the counter says (between 1 and 5), stay
    without a commit; and the pump has left its loop. *)
Theorem stop_leaves_pending_audio_uncommitted
  (before after : list ws_input) (stop : ws_input) :
  stop_event stop ->
  status_after (twilio_to_openai initial_state before) = Running ->
  frames_since_commit (state_after (twilio_to_openai initial_state before)) <> 0 ->
  let r0 := twilio_to_openai initial_state before in
  let r := twilio_to_openai initial_state (before ++ stop :: after) in
  sent_by r = sent_by r0
  /\ state_after r = state_after r0
  /\ status_after r = Finished
  /\ Z.of_nat (pending_appends 0 (sent_by r)) = frames_since_commit (state_after r0)
  /\ (0 < pending_appends 0 (sent_by r) < 6)%nat
  /\ count is_commit (sent_by r) = count is_commit (sent_by r0).
Proof.
  intros Hstop Hrun Hpending. cbv zeta.
  destruct (@pump_follows_schedule initial_state before 0 eq_refl) as (_ & Hs & _ & Hp).
  cbn [Nat.add] in Hs, Hp. change (0 mod 6)%nat with 0%nat in Hp.
  pose proof (Nat.mod_upper_bound
                (count is_append (sent_by (twilio_to_openai initial_state before))) 6
                ltac:(lia)) as Hb.
  rewrite Hs in Hpending.
  rewrite pump_app, Hrun. cbv zeta.
  cbn [twilio_to_openai]. rewrite (stop_iter _ Hstop).
  destruct (twilio_to_openai initial_state before) as [[sent0 s0] st0].
  unfold sent_by, state_after, status_after in *. cbn [fst snd] in *.
  rewrite app_nil_r.
  repeat split; try reflexivity; rewrite Hp; rewrite ?Hs; lia.
Qed.

(** *** Malformed events *)

(** C3, as amended. An event of a kind the pump does not know (this
    includes an event without an ["event"] field), a media event whose
    payload is missing or empty, and a media event whose payload decodes
    to no audio are dropped: nothing is sent, the state is unchanged, and
    the pump goes on with the messages that follow. A message that is not
    a JSON object, a media event without its ["media"] object and a start
    event without its stream identifier raise: the pump fails there and
    handles none of the messages that follow. *)
Theorem malformed_events_dropped_or_fatal
  (s : call_state) (data : json) (rest : list ws_input) :
  (forall event,
      get data "event" = Ok event ->
      eq_str event "connected" = false -> eq_str event "start" = false ->
      eq_str event "stop" = false -> eq_str event "media" = false ->
      dropped s (ws_text (Ok data)))
  /\ (forall media payload,
        get data "event" = Ok (JStr "media") ->
        index data "media" = Ok media ->
        get media "payload" = Ok payload ->
        truthy payload = false ->
        dropped s (ws_text (Ok data)))
  /\ (forall media payload,
        get data "event" = Ok (JStr "media") ->
        index data "media" = Ok media ->
        get media "payload" = Ok payload ->
        b64decode_value payload = Ok [] ->
        dropped s (ws_text (Ok data)))
  /\ (dropped s (ws_text (Ok data)) ->
      twilio_to_openai s (ws_text (Ok data) :: rest) = twilio_to_openai s rest)
  /\ (get data "event" = Exn -> twilio_to_openai_iter s (ws_text (Ok data)) = Exn)
  /\ (get data "event" = Ok (JStr "media") ->
      index data "media" = Exn ->
      twilio_to_openai_iter s (ws_text (Ok data)) = Exn)
  /\ (get data "event" = Ok (JStr "start") ->
      (index data "start" = Exn
       \/ exists start, index data "start" = Ok start /\ index start "streamSid" = Exn) ->
      twilio_to_openai_iter s (ws_text (Ok data)) = Exn)
  /\ twilio_to_openai_iter s (ws_text Exn) = Exn
  /\ (forall raw,
        twilio_to_openai_iter s raw = Exn ->
        twilio_to_openai s (raw :: rest) = ([], s, Failed)).
Proof.
  unfold dropped, twilio_to_openai_iter. cbn [bind].
  split.
  { intros event -> H1 H2 H3 H4. cbn [bind]. now rewrite H1, H2, H3, H4. }
  split.
  { intros media payload -> -> Hp Ht. eval_event. rewrite Hp. cbn [bind]. now rewrite Ht. }
  split.
  { intros media payload -> -> Hp Hd. eval_event. rewrite Hp. cbn [bind].
    destruct (truthy payload); [|reflexivity].
    cbn [negb]. now rewrite Hd. }
  split.
  { intros Hd. cbn [twilio_to_openai]. unfold twilio_to_openai_iter. cbn [bind].
    rewrite Hd. now destruct (twilio_to_openai s rest) as [[sent s'] st]. }
  split; [now intros ->|].
  split; [now intros -> ->|].
  split.
  { intros -> [-> | (start & -> & Hsid)]; [reflexivity|]. eval_event. now rewrite Hsid. }
  split; [reflexivity|].
  intros raw Hraw. cbn [twilio_to_openai]. unfold twilio_to_openai_iter.
  now rewrite Hraw.
Qed.

End InboundPump.

(** ** The outbound pump and the handler *)

Section Handler.
Context {fl : NumpyFloat} {b64 : Base64}.

(** Without a stream identifier an iteration sends nothing. *)
Lemma outbound_needs_sid (sid : json) (msg : oa_msg) :
  truthy sid = false ->
  emitted (openai_to_twilio_iter sid msg) = [].
Proof.
  intros Hsid. unfold openai_to_twilio_iter.
  destruct msg as [[evt|]| | |]; cbn [bind emitted]; try reflexivity.
  destruct (get evt "type") as [ty|]; cbn [bind emitted]; [|reflexivity].
  destruct (eq_str ty "response.audio.delta"); [|reflexivity].
  destruct (delta_payload evt) as [ulaw|]; cbn [bind emitted]; [|reflexivity].
  now rewrite Hsid.
Qed.

Lemma delta_iter (sid evt : json) (ulaw : list Z) :
  audio_delta evt ->
  delta_payload evt = Ok ulaw ->
  openai_to_twilio_iter sid (oa_text (Ok evt))
  = if negb (truthy sid) || (length ulaw =? 0)%nat then Ok ([], Continue)
    else Ok ([ {| ev_streamSid := sid; ev_payload := ulaw |} ], Continue).
Proof.
  unfold audio_delta. intros Hty Hpay. unfold openai_to_twilio_iter. cbn [bind].
  rewrite Hty. eval_event. now rewrite Hpay.
Qed.

(** The whole outbound pump is silent without a stream identifier. *)
Lemma outbound_pump_needs_sid (sid : json) (msgs : list oa_msg) :
  truthy sid = false -> fst (openai_to_twilio sid msgs) = [].
Proof.
  intros Hsid. induction msgs as [|msg rest IH]; [reflexivity|].
  cbn [openai_to_twilio].
  pose proof (@outbound_needs_sid sid msg Hsid) as He.
  destruct (openai_to_twilio_iter sid msg) as [[sent [|]]|]; cbn [emitted] in He;
    subst; try reflexivity.
  destruct (openai_to_twilio sid rest) as [sent' status].
  cbn [fst] in *. now subst.
Qed.

(** One byte of payload for every three samples of the delta. *)
Lemma delta_payload_length (evt : json) (audio : string) (bytes pcm24 : list Z) :
  index evt "audio" = Ok (JStr audio) ->
  b64decode audio = Ok bytes ->
  frombuffer_int16 bytes = Ok pcm24 ->
  exists ulaw,
    delta_payload evt = Ok ulaw /\ length ulaw = (length pcm24 / 3)%nat.
Proof.
  intros Haudio Hdec Hbuf. unfold delta_payload.
  rewrite Haudio. cbn [bind b64decode_value]. rewrite Hdec. cbn [bind].
  rewrite Hbuf. cbn [bind]. eexists. split; [reflexivity|].
  now rewrite length_pcm16_to_mulaw, downsample_blocks, length_map, length_reshape3.
Qed.

(** Only a start event writes the stream identifier. *)
Lemma iter_keeps_sid (s s' : call_state) (raw : ws_input) (sent : list directive) (l : loop) :
  is_start raw = false ->
  twilio_to_openai_iter s raw = Ok (sent, s', l) ->
  stream_sid s' = stream_sid s.
Proof.
  unfold is_start, twilio_to_openai_iter.
  destruct raw as [[data|]|]; cbn [bind]; try discriminate.
  destruct (get data "event") as [event|]; cbn [bind]; try discriminate.
  intros Hstart. rewrite Hstart.
  destruct (eq_str event "connected"); [read_result|].
  destruct (eq_str event "stop"); [read_result|].
  destruct (eq_str event "media"); cbn [negb]; [|read_result].
  destruct (index data "media") as [media|]; cbn [bind]; [|discriminate].
  destruct (get media "payload") as [payload|]; cbn [bind]; [|discriminate].
  destruct (truthy payload); cbn [negb]; [|read_result].
  destruct (b64decode_value payload) as [ulaw|]; cbn [bind]; [|discriminate].
  destruct (length (mulaw_to_pcm16 ulaw) =? 0)%nat; [read_result|].
  cbv zeta.
  destruct ((frames_since_commit s + 1) * TWILIO_FRAME_MS >=? MIN_COMMIT_MS); read_result.
Qed.

Lemma iteration_sends_no_update (s : call_state) (raw : ws_input) :
  forall sent s' l,
    twilio_to_openai_iter s raw = Ok (sent, s', l) ->
    count is_session_update sent = 0%nat.
Proof.
  intros sent s' l Heq. pose proof (iteration_cases s raw) as H. rewrite Heq in H.
  inversion H; subst; try reflexivity.
  unfold cancel_of, commit_of. now destruct (cancelled_once s), (commit_due s).
Qed.

Lemma gather_sends_no_update (b : bridge) (schedule : list arrival) :
  count is_session_update (gather_up (gather b schedule)) = 0%nat.
Proof.
  revert b. induction schedule as [|item rest IH]; intros b; [reflexivity|].
  cbn [gather]. destruct (gather_over b); [reflexivity|].
  assert (Hstep : count is_session_update (fst (fst (bridge_step b item))) = 0%nat).
  { unfold bridge_step. destruct item as [raw|msg].
    - destruct (inbound b); try reflexivity.
      destruct (twilio_to_openai_iter (call b) raw) as [[[sent s'] [|]]|] eqn:Heq;
        try reflexivity; exact (@iteration_sends_no_update _ _ _ _ _ Heq).
    - destruct (outbound b); try reflexivity.
      now destruct (openai_to_twilio_iter (stream_sid (call b)) msg) as [[sent [|]]|]. }
  destruct (bridge_step b item) as [[up down] b'].
  specialize (IH b'). destruct (gather b' rest) as [[up' down'] b''].
  unfold gather_up in *. cbn [fst snd] in *.
  rewrite count_app, Hstep, IH. reflexivity.
Qed.

Lemma gather_silent_without_start (b : bridge) (schedule : list arrival) :
  truthy (stream_sid (call b)) = false ->
  forallb (fun item => negb (from_twilio_start item)) schedule = true ->
  gather_down (gather b schedule) = [].
Proof.
  revert b. induction schedule as [|item rest IH]; intros b Hsid Hall; [reflexivity|].
  cbn [forallb] in Hall. apply andb_true_iff in Hall. destruct Hall as [Hitem Hrest].
  apply negb_true_iff in Hitem.
  cbn [gather]. destruct (gather_over b); [reflexivity|].
  assert (Hstep : snd (fst (bridge_step b item)) = []
                  /\ truthy (stream_sid (call (snd (bridge_step b item)))) = false).
  { unfold bridge_step. destruct item as [raw|msg].
    - cbn [from_twilio_start] in Hitem.
      destruct (inbound b); try (now split).
      destruct (twilio_to_openai_iter (call b) raw) as [[[sent s'] l]|] eqn:Heq;
        [|now split].
      pose proof (@iter_keeps_sid _ _ _ _ _ Hitem Heq) as Hk.
      destruct l; cbn [fst snd call]; now rewrite Hk.
    - destruct (outbound b); try (now split).
      pose proof (@outbound_needs_sid _ msg Hsid) as He.
      destruct (openai_to_twilio_iter (stream_sid (call b)) msg) as [[sent [|]]|];
        cbn [emitted] in He; cbn [fst snd call]; now split. }
  destruct (bridge_step b item) as [[up down] b'].
  cbn [fst snd] in Hstep. destruct Hstep as [Hdown Hsid'].
  specialize (IH b' Hsid' Hrest). destruct (gather b' rest) as [[up' down'] b''].
  unfold gather_down in *. cbn [fst snd] in *. now rewrite Hdown, IH.
Qed.

(** C7. An audio delta that arrives while no stream identifier is
    captured (none is before a start event: the identifier starts as
    [None]) leads to no outbound media event, and when its conversion
    succeeds the pump just goes on to the next message; the same holds
    when the converted payload is empty (a delta of fewer than three
    samples), whatever the identifier. So a
    call in which Twilio has sent no start event writes no media event to
    the telephony socket, whatever the AI session sends. *)
Theorem outbound_audio_dropped_without_stream_sid
  (sid : json) (msg : oa_msg) (env : environment) (schedule : list arrival) :
  truthy (stream_sid initial_state) = false
  /\ (truthy sid = false ->
      emitted (openai_to_twilio_iter sid msg) = []
      /\ (forall evt ulaw,
            msg = oa_text (Ok evt) -> audio_delta evt -> delta_payload evt = Ok ulaw ->
            openai_to_twilio_iter sid msg = Ok ([], Continue)))
  /\ (truthy sid = false -> forall msgs, fst (openai_to_twilio sid msgs) = [])
  /\ (forall evt,
        audio_delta evt -> delta_payload evt = Ok [] ->
        openai_to_twilio_iter sid (oa_text (Ok evt)) = Ok ([], Continue))
  /\ (forall evt audio bytes pcm24,
        audio_delta evt ->
        index evt "audio" = Ok (JStr audio) ->
        b64decode audio = Ok bytes ->
        frombuffer_int16 bytes = Ok pcm24 ->
        (length pcm24 < 3)%nat ->
        openai_to_twilio_iter sid (oa_text (Ok evt)) = Ok ([], Continue))
  /\ (forallb (fun item => negb (from_twilio_start item)) schedule = true ->
      gather_down (gather initial_bridge schedule) = []
      /\ count is_send (telephony (media_stream env schedule)) = 0%nat).
Proof.
  split; [reflexivity|]. split.
  { intros Hsid. split; [now apply outbound_needs_sid|].
    intros evt ulaw -> Hty Hpay. rewrite (delta_iter sid Hty Hpay), Hsid. reflexivity. }
  split; [intros Hsid msgs; now apply outbound_pump_needs_sid|].
  split.
  { intros evt Hty Hpay. rewrite (delta_iter sid Hty Hpay).
    cbn [length Nat.eqb]. now rewrite orb_true_r. }
  split.
  { intros evt audio bytes pcm24 Hty Haudio Hdec Hbuf Hshort.
    destruct (delta_payload_length evt Haudio Hdec Hbuf) as (ulaw & Hpay & Hlen).
    rewrite (delta_iter sid Hty Hpay), Hlen.
    rewrite Nat.div_small by exact Hshort. cbn [Nat.eqb]. now rewrite orb_true_r. }
  intros Hall.
  pose proof (@gather_silent_without_start initial_bridge schedule eq_refl Hall) as Hdown.
  split; [exact Hdown|].
  unfold media_stream. destruct (key_missing env); [reflexivity|].
  destruct (connects env); cbn [negb]; [|reflexivity].
  unfold gather_down in Hdown.
  destruct (gather initial_bridge schedule) as [[up down] b].
  cbn [fst snd] in Hdown. subst down. reflexivity.
Qed.

(** C9. In a session whose AI connection is opened (the credential is
    present and the connection attempt succeeds), exactly one
    [session.update] is sent upstream; it is the first directive, so every
    [input_audio_buffer.append] comes after it. *)
Theorem session_update_once_before_any_append
  (env : environment) (schedule : list arrival) :
  key_missing env = false ->
  connects env = true ->
  let up := upstream (media_stream env schedule) in
  count is_session_update up = 1%nat
  /\ (exists rest,
        up = session_update (SYSTEM_PROMPT env) (OPENAI_VOICE env) :: rest
        /\ count is_session_update rest = 0%nat)
  /\ (forall i audio,
        nth_error up i = Some (input_audio_buffer_append audio) -> (0 < i)%nat).
Proof.
  intros Hkey Hconn. unfold media_stream. rewrite Hkey, Hconn. cbn [negb].
  pose proof (gather_sends_no_update initial_bridge schedule) as Hup.
  unfold gather_up in Hup.
  destruct (gather initial_bridge schedule) as [[up down] b].
  cbn [fst snd upstream] in *. cbv zeta.
  assert (Hrest : count is_session_update
                    (response_create (OPENAI_VOICE env) :: up) = 0%nat) by exact Hup.
  split; [unfold count in *; cbn [filter is_session_update length]; now rewrite Hup|].
  split; [eexists; split; [reflexivity|exact Hrest]|].
  intros [|i] audio Hnth; [discriminate|lia].
Qed.

(** *** A session that cannot be set up *)



End Handler.

(** ** The properties on concrete calls

    The calls below run on real arithmetic and on the base64 decoder of
    CPython; ["/w=="] is the one byte [0xFF]. *)

Section Calls.

Lemma ff_frame_audio : audio_frame ff_frame [255].
Proof.
  eapply audio_frame_intro with (payload := "/w=="%string);
    try reflexivity; discriminate.
Qed.

(** The commit theorem on seven frames: one commit, after the sixth. *)
Lemma commit_once_every_six_frames_witness :
  Forall carries_audio (repeat ff_frame 7)
  /\ audio_marks (sent_by (twilio_to_openai initial_state (repeat ff_frame 7)))
     = [append_mark; append_mark; append_mark; append_mark; append_mark; append_mark;
        commit_mark; append_mark]
  /\ count is_append (sent_by (twilio_to_openai initial_state (repeat ff_frame 7))) = 7%nat.
Proof.
  assert (Hall : Forall carries_audio (repeat ff_frame 7)).
  { apply Forall_forall. intros raw Hraw. apply repeat_spec in Hraw. subst raw.
    exists [255]. exact ff_frame_audio. }
  pose proof (commit_once_every_six_frames (repeat ff_frame 7))
    as (_ & Hmarks & _ & _ & _ & Hn & _).
  specialize (Hn Hall). split; [exact Hall|]. split; [|exact Hn].
  rewrite Hmarks, Hn. reflexivity.
Defined.

(** The barge-in theorem on three frames: one cancellation. *)
Lemma barge_in_cancels_exactly_once_witness :
  Forall carries_audio (repeat ff_frame 3)
  /\ count is_cancel (sent_by (twilio_to_openai initial_state (repeat ff_frame 3))) = 1%nat.
Proof.
  assert (Hall : Forall carries_audio (repeat ff_frame 3)).
  { apply Forall_forall. intros raw Hraw. apply repeat_spec in Hraw. subst raw.
    exists [255]. exact ff_frame_audio. }
  split; [exact Hall|].
  exact (proj2 (proj1 (proj2 (proj2 (proj2
           (barge_in_cancels_exactly_once (repeat ff_frame 3))))) Hall)).
Defined.

(** C3, as the claim states it, fails: a start event without its stream
    identifier is not dropped. The pump fails on it, and the audio frame
    that follows, which alone would be forwarded, is never handled; the
    session ends with the greeting as its last directive. *)
Lemma start_without_stream_sid_ends_the_pump :
  twilio_to_openai_iter initial_state bare_start_frame = Exn
  /\ ~ dropped initial_state bare_start_frame
  /\ twilio_to_openai initial_state [bare_start_frame; ff_frame]
     = ([], initial_state, Failed)
  /\ count is_append (sent_by (twilio_to_openai initial_state [ff_frame])) = 1%nat
  /\ inbound (pumps (media_stream (test_env true) [inl bare_start_frame; inl ff_frame]))
     = Failed
  /\ count is_append
       (upstream (media_stream (test_env true) [inl bare_start_frame; inl ff_frame]))
     = 0%nat.
Proof.
  split; [reflexivity|]. split; [unfold dropped; discriminate|].
  split; [reflexivity|]. split; [reflexivity|]. split; reflexivity.
Qed.

(** The amended C3 on an event of unknown kind before an audio frame. *)
Lemma malformed_events_dropped_or_fatal_witness :
  dropped initial_state mark_frame
  /\ twilio_to_openai initial_state [mark_frame; ff_frame]
     = twilio_to_openai initial_state [ff_frame].
Proof.
  pose proof (malformed_events_dropped_or_fatal initial_state
                (JObj [("event", JStr "mark")])%string [ff_frame])
    as (Hkind & _ & _ & Hnext & _).
  assert (Hd : dropped initial_state mark_frame).
  { apply (Hkind (JStr "mark")); reflexivity. }
  split; [exact Hd|exact (Hnext Hd)].
Defined.

(** C7 on a call without a start event, against the same call with one. *)
Lemma outbound_audio_dropped_without_stream_sid_witness :
  gather_down (gather initial_bridge [inl ff_frame; inr three_samples]) = []
  /\ length (gather_down (gather initial_bridge
               [inl (start_frame "CA123"); inl ff_frame; inr three_samples])) = 1%nat.
Proof.
  split; [|reflexivity].
  exact (proj1 (proj2 (proj2 (proj2 (proj2 (proj2
    (outbound_audio_dropped_without_stream_sid JNull three_samples (test_env true)
       [inl ff_frame; inr three_samples]))))) eq_refl)).
Defined.

(** C9 on a call of a start event and an audio frame. *)
Lemma session_update_once_before_any_append_witness :
  key_missing (test_env true) = false
  /\ connects (test_env true) = true
  /\ count is_session_update
       (upstream (media_stream (test_env true) [inl (start_frame "CA123"); inl ff_frame]))
     = 1%nat
  /\ count is_append
       (upstream (media_stream (test_env true) [inl (start_frame "CA123"); inl ff_frame]))
     = 1%nat.
Proof.
  split; [reflexivity|]. split; [reflexivity|]. split; [|reflexivity].
  exact (proj1 (@session_update_once_before_any_append _ _ (test_env true)
                  [inl (start_frame "CA123"); inl ff_frame] eq_refl eq_refl)).
Defined.

(** C10 on a call of two audio frames, a stop event and one more frame. *)
Lemma stop_leaves_pending_audio_uncommitted_witness :
  stop_event stop_frame
  /\ status_after (twilio_to_openai initial_state [ff_frame; ff_frame]) = Running
  /\ frames_since_commit (state_after (twilio_to_openai initial_state [ff_frame; ff_frame]))
     = 2
  /\ sent_by (twilio_to_openai initial_state ([ff_frame; ff_frame] ++ stop_frame :: [ff_frame]))
     = sent_by (twilio_to_openai initial_state [ff_frame; ff_frame])
  /\ count is_commit
       (sent_by (twilio_to_openai initial_state
                   ([ff_frame; ff_frame] ++ stop_frame :: [ff_frame]))) = 0%nat.
Proof.
  assert (Hstop : stop_event stop_frame).
  { eexists. split; reflexivity. }
  assert (Hpending : frames_since_commit
                       (state_after (twilio_to_openai initial_state [ff_frame; ff_frame]))
                     <> 0) by discriminate.
  pose proof (@stop_leaves_pending_audio_uncommitted _ _ [ff_frame; ff_frame] [ff_frame]
                stop_frame Hstop eq_refl Hpending) as (Hsent & _ & _ & _ & _ & Hcommit).
  split; [exact Hstop|]. split; [reflexivity|]. split; [reflexivity|].
  split; [exact Hsent|]. rewrite Hcommit. reflexivity.
Defined.


End Calls.

(** * Further properties *)

(** ** The stream URL *)

Section Strings.
Local Open Scope string_scope.

Lemma string_length_ind (P : string -> Prop) :
  (forall s, (forall t, (String.length t < String.length s)%nat -> P t) -> P s) ->
  forall s, P s.
Proof.
  intros step s. apply step.
  induction s as [|c s IH]; intros t Ht; cbn in Ht; [lia|].
  apply step. intros u Hu. apply IH. lia.
Qed.

Lemma string_length_app (a b : string) :
  String.length (a ++ b) = (String.length a + String.length b)%nat.
Proof. induction a as [|c a IH]; [reflexivity|]. cbn. now rewrite IH. Qed.

Lemma prefix_cons (a b : ascii) (p s : string) :
  String.prefix (String a p) (String b s) = Ascii.eqb a b && String.prefix p s.
Proof.
  cbn. destruct (ascii_dec a b) as [->|Hne].
  - now rewrite Ascii.eqb_refl.
  - destruct (Ascii.eqb_spec a b); [contradiction|reflexivity].
Qed.

Lemma prefix_nil_r (p : string) : String.prefix p "" = match p with "" => true | _ => false end.
Proof. now destruct p. Qed.

Lemma prefix_app (a s : string) :
  String.prefix a s = true -> exists t, s = a ++ t.
Proof.
  revert s. induction a as [|c a IH]; intros s H; [now exists s|].
  destruct s as [|d s]; [discriminate|].
  rewrite prefix_cons in H. apply andb_true_iff in H. destruct H as [Hc Hp].
  apply Ascii.eqb_eq in Hc. subst d. destruct (IH s Hp) as [t ->]. now exists t.
Qed.

Lemma prefix_extend (a b s : string) :
  String.prefix (a ++ b) s = true -> String.prefix a s = true.
Proof.
  revert s. induction a as [|c a IH]; intros s H; [now destruct s|].
  destruct s as [|d s]; [discriminate|].
  cbn [String.append] in H. rewrite prefix_cons in *.
  apply andb_true_iff in H. destruct H as [Hc Hp]. rewrite Hc. cbn. now apply IH.
Qed.

Lemma occurs_prefix (p s : string) : String.prefix p s = true -> occurs p s = true.
Proof. intros H. destruct s; cbn [occurs]; now rewrite H. Qed.

Lemma occurs_cons (p : string) (c : ascii) (s : string) :
  occurs p (String c s) = String.prefix p (String c s) || occurs p s.
Proof. reflexivity. Qed.

Lemma occurs_nil (p : string) : occurs p "" = match p with "" => true | _ => false end.
Proof. destruct p; reflexivity. Qed.

Lemma occurs_suffix (p a t : string) : occurs p (a ++ t) = false -> occurs p t = false.
Proof.
  induction a as [|c a IH]; intros H; [exact H|].
  cbn [String.append] in H. rewrite occurs_cons in H.
  apply orb_false_iff in H. now apply IH.
Qed.

Lemma occurs_extend (a b s : string) : occurs a s = false -> occurs (a ++ b) s = false.
Proof.
  induction s as [|c s IH]; intros H.
  - rewrite occurs_nil in *. destruct a; [discriminate|reflexivity].
  - rewrite occurs_cons in *. apply orb_false_iff in H. destruct H as [Hp Ho].
    rewrite (IH Ho), orb_false_r.
    destruct (String.prefix (a ++ b) (String c s)) eqn:E; [|reflexivity].
    apply prefix_extend in E. congruence.
Qed.

(** An occurrence cannot begin inside a string that lacks its first
    character. *)
Lemma occurs_app_l (p0 : ascii) (p' a r : string) :
  has_char p0 a = false ->
  occurs (String p0 p') (a ++ r) = occurs (String p0 p') r.
Proof.
  induction a as [|c a IH]; intros H; [reflexivity|].
  cbn [has_char] in H. apply orb_false_iff in H. destruct H as [Hc Ha].
  cbn [String.append]. rewrite occurs_cons, prefix_cons, Hc. cbn [andb orb]. now apply IH.
Qed.

(** Nor can it reach into a string whose first character it lacks. *)
Lemma prefix_app_r (p x : string) (b0 : ascii) (b' : string) :
  has_char b0 p = false ->
  String.prefix p (x ++ String b0 b') = String.prefix p x.
Proof.
  revert x. induction p as [|q p IH]; intros x H; [now destruct x|].
  cbn [has_char] in H. apply orb_false_iff in H. destruct H as [Hq Hp].
  destruct x as [|c x].
  - cbn [String.append]. rewrite prefix_cons.
    rewrite Ascii.eqb_sym in Hq. now rewrite Hq.
  - cbn [String.append]. rewrite !prefix_cons. now rewrite IH.
Qed.

Lemma occurs_app_r (p0 : ascii) (p' x : string) (b0 : ascii) (b' : string) :
  has_char b0 (String p0 p') = false ->
  occurs (String p0 p') (String b0 b') = false ->
  occurs (String p0 p') (x ++ String b0 b') = occurs (String p0 p') x.
Proof.
  intros Hb Hn. induction x as [|c x IH].
  - cbn [String.append]. rewrite Hn. reflexivity.
  - cbn [String.append]. rewrite !occurs_cons, IH. f_equal.
    change (String c (x ++ String b0 b')) with (String c x ++ String b0 b').
    now apply prefix_app_r.
Qed.

Lemma string_app_assoc (a b c : string) : (a ++ b) ++ c = a ++ (b ++ c).
Proof. induction a as [|x a IH]; [reflexivity|]. cbn. now rewrite IH. Qed.

Lemma prefix_app_self (a t : string) : String.prefix a (a ++ t) = true.
Proof.
  induction a as [|c a IH]; [now destruct t|].
  cbn [String.append]. rewrite prefix_cons, Ascii.eqb_refl. exact IH.
Qed.

Lemma prefix_app_mono (p a b : string) :
  String.prefix p a = true -> String.prefix p (a ++ b) = true.
Proof.
  revert a. induction p as [|q p IH]; intros a H; [now destruct (a ++ b)|].
  destruct a as [|c a]; [discriminate|].
  cbn [String.append]. rewrite prefix_cons in *.
  apply andb_true_iff in H. destruct H as [Hc Hp]. rewrite Hc. cbn [andb]. now apply IH.
Qed.

Lemma occurs_app_mono (p a b : string) :
  occurs p a = true -> occurs p (a ++ b) = true.
Proof.
  induction a as [|c a IH]; intros H.
  - rewrite occurs_nil in H. destruct p; [|discriminate]. now destruct b.
  - cbn [String.append]. rewrite occurs_cons in *.
    apply orb_true_iff in H. destruct H as [H|H].
    + change (String c (a ++ b)) with (String c a ++ b).
      now rewrite (prefix_app_mono _ _ b H).
    + rewrite (IH H). apply orb_true_r.
Qed.

(** What [rstrip] removes is a tail of the text. *)
Lemma rstrip_tail (ch : ascii) (s : string) : exists t, s = rstrip ch s ++ t.
Proof.
  induction s as [|c s [t IH]]; [now exists ""|].
  cbn [rstrip]. destruct (rstrip ch s) as [|k kept] eqn:E.
  - destruct (Ascii.eqb c ch); [now exists (String c s)|now exists s].
  - exists t. cbn [String.append] in *. now rewrite <- IH.
Qed.

Lemma rstrip_app (ch : ascii) (a b : string) :
  rstrip ch b <> "" -> rstrip ch (a ++ b) = a ++ rstrip ch b.
Proof.
  intros Hb. induction a as [|c a IH]; [reflexivity|].
  cbn [String.append rstrip]. rewrite IH.
  destruct (a ++ rstrip ch b) eqn:E; [|reflexivity].
  destruct a; [contradiction|discriminate].
Qed.

Lemma occurs_rstrip (p : string) (ch : ascii) (s : string) :
  occurs p s = false -> occurs p (rstrip ch s) = false.
Proof.
  intros H. destruct (rstrip_tail ch s) as [t Ht].
  destruct (occurs p (rstrip ch s)) eqn:E; [|reflexivity].
  apply (occurs_app_mono _ _ t) in E. rewrite <- Ht in E. congruence.
Qed.

Variables (old new : string) (o0 n0 : ascii) (old' new' : string).
Hypothesis old_eq : old = String o0 old'.
Hypothesis new_eq : new = String n0 new'.

Lemma replace_from_skip (a t : string) :
  replace_from (String.length a) old new (a ++ t) = replace_from 0 old new t.
Proof. induction a as [|c a IH]; [reflexivity|exact IH]. Qed.

Lemma str_replace_hit (s : string) :
  String.prefix old s = true ->
  exists t, s = old ++ t /\ str_replace old new s = new ++ str_replace old new t.
Proof.
  intros H. destruct (prefix_app _ _ H) as [t Ht]. exists t. split; [exact Ht|].
  unfold str_replace. subst s.
  assert (Hs : old ++ t = String o0 (old' ++ t)) by (rewrite old_eq; reflexivity).
  rewrite Hs in H |- *. cbn [replace_from]. rewrite H.
  replace (String.length old - 1)%nat with (String.length old')
    by (rewrite old_eq; cbn [String.length]; lia).
  now rewrite replace_from_skip.
Qed.

Lemma str_replace_app_old (t : string) :
  str_replace old new (old ++ t) = new ++ str_replace old new t.
Proof.
  unfold str_replace.
  assert (Hs : old ++ t = String o0 (old' ++ t)) by (rewrite old_eq; reflexivity).
  pose proof (prefix_app_self old t) as H.
  rewrite Hs in H |- *. cbn [replace_from]. rewrite H.
  replace (String.length old - 1)%nat with (String.length old')
    by (rewrite old_eq; cbn [String.length]; lia).
  now rewrite replace_from_skip.
Qed.

Lemma str_replace_miss (c : ascii) (rest : string) :
  String.prefix old (String c rest) = false ->
  str_replace old new (String c rest) = String c (str_replace old new rest).
Proof. intros H. unfold str_replace. cbn [replace_from]. now rewrite H. Qed.

(** What the result begins with, the text began with, unless it is new. *)
Lemma prefix_str_replace (q s : string) :
  has_char n0 q = false ->
  String.prefix q (str_replace old new s) = true -> String.prefix q s = true.
Proof.
  revert q. induction s as [|c rest IH]; intros q Hq H; [exact H|].
  destruct q as [|q0 q]; [reflexivity|].
  cbn [has_char] in Hq. apply orb_false_iff in Hq. destruct Hq as [Hq0 Hq].
  destruct (String.prefix old (String c rest)) eqn:Hit.
  - destruct (str_replace_hit _ Hit) as (t & _ & Hr). rewrite Hr, new_eq in H.
    cbn [String.append] in H. rewrite prefix_cons in H.
    rewrite Ascii.eqb_sym in Hq0. rewrite Hq0 in H. discriminate.
  - rewrite (str_replace_miss _ _ Hit) in H. rewrite prefix_cons in *.
    apply andb_true_iff in H. destruct H as [Hc Hp]. rewrite Hc. cbn [andb].
    now apply IH.
Qed.

(** A text free of [old] is left as it is. *)
Lemma str_replace_id (s : string) :
  occurs old s = false -> str_replace old new s = s.
Proof.
  induction s as [|c rest IH]; intros H; [reflexivity|].
  rewrite occurs_cons in H. apply orb_false_iff in H. destruct H as [Hp Ho].
  rewrite (str_replace_miss _ _ Hp). now rewrite IH.
Qed.

(** After the replacement, a pattern [p] is gone if it is [old] itself
    or was absent before, provided [p] and [new] cannot overlap: the first
    character of each is missing from the other. *)
Lemma str_replace_clears (p0 : ascii) (p' s : string) :
  has_char p0 new = false ->
  has_char n0 (String p0 p') = false ->
  String p0 p' = old \/ occurs (String p0 p') s = false ->
  occurs (String p0 p') (str_replace old new s) = false.
Proof.
  intros Hp Hn. induction s as [s IH] using string_length_ind. intros Hs.
  destruct s as [|c rest]; [reflexivity|].
  destruct (String.prefix old (String c rest)) eqn:Hit.
  - destruct (str_replace_hit _ Hit) as (t & Ht & Hr). rewrite Hr.
    rewrite occurs_app_l by exact Hp. apply IH.
    + rewrite Ht, old_eq. cbn [String.append String.length].
      rewrite string_length_app. lia.
    + destruct Hs as [Hs|Hs]; [now left|right].
      rewrite Ht in Hs. now apply occurs_suffix in Hs.
  - rewrite (str_replace_miss _ _ Hit), occurs_cons.
    assert (Hrest : occurs (String p0 p') (str_replace old new rest) = false).
    { apply IH; [cbn; lia|]. destruct Hs as [Hs|Hs]; [now left|right].
      rewrite occurs_cons in Hs. now apply orb_false_iff in Hs. }
    rewrite Hrest, orb_false_r.
    destruct (String.prefix (String p0 p') (String c (str_replace old new rest))) eqn:E;
      [|reflexivity].
    assert (Hpre : String.prefix (String p0 p') (String c rest) = true).
    { rewrite prefix_cons in *. apply andb_true_iff in E. destruct E as [Ec Ep].
      rewrite Ec. cbn [andb]. apply prefix_str_replace; [|exact Ep].
      cbn [has_char] in Hn. now apply orb_false_iff in Hn. }
    destruct Hs as [Hs|Hs].
    + rewrite Hs in Hpre. congruence.
    + rewrite occurs_cons, Hpre in Hs. discriminate.
Qed.

End Strings.

Section ToWss.
Local Open Scope string_scope.

Lemma to_wss_first_pass (url : string) :
  occurs "https://" (str_replace "https://" "wss://" url) = false.
Proof.
  apply (@str_replace_clears "https://" "wss://" "h" "w" "ttps://" "ss://" eq_refl eq_refl
           "h" "ttps://" url eq_refl eq_refl).
  now left.
Qed.

Lemma to_wss_no_https (url : string) : occurs "https://" (to_wss url) = false.
Proof.
  unfold to_wss.
  apply (@str_replace_clears "http://" "ws://" "h" "w" "ttp://" "s://" eq_refl eq_refl
           "h" "ttps://" _ eq_refl eq_refl).
  right. apply to_wss_first_pass.
Qed.

Lemma to_wss_no_http (url : string) : occurs "http://" (to_wss url) = false.
Proof.
  unfold to_wss.
  apply (@str_replace_clears "http://" "ws://" "h" "w" "ttp://" "s://" eq_refl eq_refl
           "h" "ttp://" _ eq_refl eq_refl).
  now left.
Qed.

Lemma to_wss_clean (rest : string) :
  occurs "http" rest = false -> to_wss rest = rest.
Proof.
  intros H. unfold to_wss.
  rewrite (@str_replace_id "https://" "wss://" rest)
    by exact (occurs_extend "http" "s://" rest H).
  now rewrite (@str_replace_id "http://" "ws://" rest)
    by exact (occurs_extend "http" "://" rest H).
Qed.

Lemma to_wss_https (rest : string) :
  occurs "http" rest = false -> to_wss ("https://" ++ rest) = "wss://" ++ rest.
Proof.
  intros H.
  assert (Hs : occurs "https://" rest = false)
    by exact (occurs_extend "http" "s://" rest H).
  unfold to_wss.
  rewrite (@str_replace_app_old "https://" "wss://" "h" "ttps://" eq_refl rest).
  rewrite (@str_replace_id "https://" "wss://" rest Hs).
  apply str_replace_id.
  rewrite (@occurs_app_l "h" "ttp://" "wss://" rest eq_refl).
  exact (occurs_extend "http" "://" rest H).
Qed.

Lemma to_wss_http (rest : string) :
  occurs "http" rest = false -> to_wss ("http://" ++ rest) = "ws://" ++ rest.
Proof.
  intros H.
  assert (Hs : occurs "https://" rest = false)
    by exact (occurs_extend "http" "s://" rest H).
  assert (Hp : occurs "http://" rest = false)
    by exact (occurs_extend "http" "://" rest H).
  unfold to_wss.
  rewrite (@str_replace_id "https://" "wss://" ("http://" ++ rest)).
  - rewrite (@str_replace_app_old "http://" "ws://" "h" "ttp://" eq_refl rest).
    now rewrite (@str_replace_id "http://" "ws://" rest Hp).
  - change ("http://" ++ rest) with (String "h" ("ttp://" ++ rest)).
    rewrite occurs_cons.
    rewrite (@occurs_app_l "h" "ttps://" "ttp://" rest eq_refl), Hs, orb_false_r.
    cbn [String.append]. rewrite !prefix_cons. reflexivity.
Qed.

(** X2. On a URL that holds ["http"] only in its scheme, [to_wss]
    rewrites the scheme and nothing else: [https://] becomes [wss://],
    [http://] becomes [ws://], and a text without ["http"] is unchanged. *)
Theorem to_wss_rewrites_the_scheme (rest : string) :
  occurs "http" rest = false ->
  to_wss ("https://" ++ rest) = "wss://" ++ rest
  /\ to_wss ("http://" ++ rest) = "ws://" ++ rest
  /\ to_wss rest = rest.
Proof.
  intros H. split; [now apply to_wss_https|].
  split; [now apply to_wss_http|now apply to_wss_clean].
Qed.

Lemma to_wss_rewrites_the_scheme_witness :
  occurs "http" "example.ngrok.app/media-stream" = false
  /\ to_wss "https://example.ngrok.app/media-stream" = "wss://example.ngrok.app/media-stream".
Proof.
  split; [reflexivity|].
  exact (proj1 (@to_wss_rewrites_the_scheme "example.ngrok.app/media-stream" eq_refl)).
Defined.

(** The path the handler is mounted on adds no ["http"]. *)
Lemma media_stream_path_clean (base : string) :
  occurs "http" base = false -> occurs "http" (base ++ "/media-stream") = false.
Proof.
  intros H.
  now rewrite (@occurs_app_r "h" "ttp" base "/" "media-stream" eq_refl eq_refl).
Qed.

Lemma rstrip_all (ch : ascii) (a b : string) :
  rstrip ch b = "" -> rstrip ch (a ++ b) = rstrip ch a.
Proof.
  intros Hb. induction a as [|c a IH]; [exact Hb|].
  cbn [String.append rstrip]. now rewrite IH.
Qed.

(** X3. With [PUBLIC_URL] set to an [https://] (or [http://]) URL that
    holds ["http"] nowhere else, the stream URL is the same URL with the
    scheme [wss://] (or [ws://]), its trailing slashes removed and
    [/media-stream] added, whatever the request; if nothing but slashes
    follows the scheme, the slashes of the scheme are stripped too and the
    result is ["https:/media-stream"], not a socket URL. *)
Theorem stream_url_from_public_url (h : string) (headers : list (string * string)) :
  occurs "http" h = false ->
  (rstrip "/" h <> "" ->
   stream_url_from_request (Some ("https://" ++ h)) headers
   = "wss://" ++ rstrip "/" h ++ "/media-stream"
   /\ stream_url_from_request (Some ("http://" ++ h)) headers
      = "ws://" ++ rstrip "/" h ++ "/media-stream")
  /\ (rstrip "/" h = "" ->
      stream_url_from_request (Some ("https://" ++ h)) headers = "https:/media-stream").
Proof.
  intros Hh.
  pose proof (media_stream_path_clean _ (occurs_rstrip _ "/" _ Hh)) as Hclean.
  split.
  - intros Hne. unfold stream_url_from_request.
    change (String.eqb ("https://" ++ h) "") with false.
    change (String.eqb ("http://" ++ h) "") with false. cbv iota.
    rewrite !rstrip_app by exact Hne. rewrite !string_app_assoc.
    split; [now apply to_wss_https|now apply to_wss_http].
  - intros He. unfold stream_url_from_request.
    change (String.eqb ("https://" ++ h) "") with false. cbv iota.
    rewrite (rstrip_all "/" "https://" h He). reflexivity.
Qed.

Lemma stream_url_from_public_url_witness :
  occurs "http" "example.ngrok.app//" = false
  /\ rstrip "/" "example.ngrok.app//" <> ""
  /\ stream_url_from_request (Some "https://example.ngrok.app//") [("host", "localhost:8000")]
     = "wss://example.ngrok.app/media-stream".
Proof.
  split; [reflexivity|]. split; [discriminate|].
  exact (proj1 (proj1 (@stream_url_from_public_url "example.ngrok.app//"
                         [("host", "localhost:8000")] eq_refl)
                  ltac:(discriminate))).
Defined.

(** X4. Without [PUBLIC_URL] (unset or empty) the stream URL is built
    from the [Host] header: a host that holds no ["http"] gets the scheme
    [wss://] and the path [/media-stream] (a missing header counts as the
    empty host); a header value that itself starts with a scheme is taken
    as the base as it is, and its scheme is rewritten. *)
Theorem stream_url_from_host_header
  (public_url : option string) (headers : list (string * string)) (h : string) :
  public_url = None \/ public_url = Some "" ->
  occurs "http" h = false ->
  (headers_get "host" headers "" = h ->
   stream_url_from_request public_url headers = "wss://" ++ h ++ "/media-stream")
  /\ (headers_get "host" headers "" = "http://" ++ h ->
      stream_url_from_request public_url headers = "ws://" ++ h ++ "/media-stream")
  /\ (headers_get "host" headers "" = "https://" ++ h ->
      stream_url_from_request public_url headers = "wss://" ++ h ++ "/media-stream")
  /\ (headers = [] ->
      stream_url_from_request public_url headers = "wss:///media-stream").
Proof.
  intros Hpub Hh.
  pose proof (media_stream_path_clean _ Hh) as Hclean.
  assert (Hfall : stream_url_from_request public_url headers
                  = let host := headers_get "host" headers "" in
                    to_wss ((if negb (String.prefix "http" host)
                             then "https://" ++ host else host) ++ "/media-stream")).
  { destruct Hpub as [-> | ->]; reflexivity. }
  rewrite Hfall. cbv zeta.
  split; [|split; [|split]].
  - intros ->.
    assert (Hp : String.prefix "http" h = false).
    { destruct (String.prefix "http" h) eqn:E; [|reflexivity].
      apply occurs_prefix in E. congruence. }
    rewrite Hp. cbn [negb]. rewrite string_app_assoc. now apply to_wss_https.
  - intros ->. change (String.prefix "http" ("http://" ++ h)) with true. cbn [negb].
    rewrite string_app_assoc. now apply to_wss_http.
  - intros ->. change (String.prefix "http" ("https://" ++ h)) with true. cbn [negb].
    rewrite string_app_assoc. now apply to_wss_https.
  - intros ->. reflexivity.
Qed.

Lemma stream_url_from_host_header_witness :
  occurs "http" "example.ngrok.app" = false
  /\ stream_url_from_request None [("user-agent", "TwilioProxy/1.1"); ("host", "example.ngrok.app")]
     = "wss://example.ngrok.app/media-stream".
Proof.
  split; [reflexivity|].
  exact (proj1 (@stream_url_from_host_header None
                  [("user-agent", "TwilioProxy/1.1"); ("host", "example.ngrok.app")]
                  "example.ngrok.app" (or_introl eq_refl) eq_refl) eq_refl).
Defined.

Lemma stream_url_is_to_wss (public_url : option string) (headers : list (string * string)) :
  exists url, stream_url_from_request public_url headers = to_wss url.
Proof.
  unfold stream_url_from_request.
  destruct public_url as [url|]; [destruct (String.eqb url "")|]; eexists; reflexivity.
Qed.

(** X1. Whatever the URL, [to_wss] leaves no ["https://"] and no
    ["http://"] in it, and applying it twice changes nothing more; so the
    stream URL holds neither, whatever [PUBLIC_URL] and the request. *)
Theorem to_wss_leaves_no_http_scheme
  (url : string) (public_url : option string) (headers : list (string * string)) :
  occurs "https://" (to_wss url) = false
  /\ occurs "http://" (to_wss url) = false
  /\ to_wss (to_wss url) = to_wss url
  /\ occurs "https://" (stream_url_from_request public_url headers) = false
  /\ occurs "http://" (stream_url_from_request public_url headers) = false.
Proof.
  pose proof (to_wss_no_https url) as H1.
  pose proof (to_wss_no_http url) as H2.
  split; [exact H1|]. split; [exact H2|]. split.
  { unfold to_wss at 1.
    rewrite (@str_replace_id "https://" "wss://" (to_wss url) H1).
    now rewrite (@str_replace_id "http://" "ws://" (to_wss url) H2). }
  destruct (stream_url_is_to_wss public_url headers) as [base ->].
  split; [apply to_wss_no_https|apply to_wss_no_http].
Qed.

End ToWss.

(** ** More on the codec *)

Section CodecComposition.
Context {fl : NumpyFloat}.

Lemma lxor_255_byte (b : Z) : is_uint8 b -> is_uint8 (Z.lxor b 255).
Proof.
  unfold is_uint8. intros Hb.
  assert (H : forallb (fun n => let v := Z.lxor (Z.of_nat n) 255 in (0 <=? v) && (v <=? 255))
                      (seq 0 256) = true) by (vm_compute; reflexivity).
  rewrite forallb_forall in H.
  specialize (H (Z.to_nat b)). rewrite Z2Nat.id in H by lia.
  assert (Hin : In (Z.to_nat b) (seq 0 256)) by (apply in_seq; lia).
  apply H in Hin. cbv zeta in Hin. apply andb_true_iff in Hin. lia.
Qed.

Lemma uint8_wrap_range (z : Z) : is_uint8 (uint8_wrap z).
Proof.
  unfold is_uint8, uint8_wrap. pose proof (Z.mod_pos_bound z 256 ltac:(lia)). lia.
Qed.

(** Both companding functions work sample by sample. *)
Lemma pcm16_to_mulaw_pointwise :
  exists f, (forall v, is_uint8 (f v)) /\ forall samples, pcm16_to_mulaw samples = map f samples.
Proof.
  eexists (fun v => Z.lxor (uint8_wrap (f_trunc _)) 255). split.
  - intros v. apply lxor_255_byte, uint8_wrap_range.
  - intros samples. unfold pcm16_to_mulaw.
    destruct samples as [|v samples]; [reflexivity|].
    cbv zeta. change (length (v :: samples) =? 0)%nat with false. cbv iota.
    unfold xor_ff, astype_uint8, arr_mul, arr_div, arr_add, astype_float.
    rewrite !map_map, arr_times_map, !map_map. reflexivity.
Qed.

Lemma mulaw_to_pcm16_pointwise (mu : list Z) :
  mulaw_to_pcm16 mu = map compand_decode_byte mu.
Proof.
  unfold mulaw_to_pcm16. destruct mu as [|b mu]; [reflexivity|].
  cbv zeta. change (length (b :: mu) =? 0)%nat with false. cbv iota.
  exact (decode_pipeline (b :: mu)).
Qed.

Lemma mulaw_to_pcm16_int16 (mu : list Z) : Forall is_int16 (mulaw_to_pcm16 mu).
Proof.
  rewrite mulaw_to_pcm16_pointwise. apply Forall_forall. intros s Hs.
  apply in_map_iff in Hs. destruct Hs as (b & <- & _). apply int16_wrap_range.
Qed.

Lemma pcm16_to_mulaw_uint8 (samples : list Z) : Forall is_uint8 (pcm16_to_mulaw samples).
Proof.
  destruct pcm16_to_mulaw_pointwise as (f & Hf & Hmap). rewrite Hmap.
  apply Forall_forall. intros b Hb. apply in_map_iff in Hb.
  destruct Hb as (v & <- & _). apply Hf.
Qed.

(** X5. [pcm16_to_mulaw] gives one byte, between 0 and 255, for every
    sample, so nothing for no sample; and it encodes sample by sample: the
    bytes of two chunks are the bytes of the first followed by the bytes
    of the second. This holds whatever the float primitives compute. *)
Theorem pcm16_to_mulaw_bytes (samples more : list Z) :
  length (pcm16_to_mulaw samples) = length samples
  /\ Forall is_uint8 (pcm16_to_mulaw samples)
  /\ (pcm16_to_mulaw samples = [] <-> samples = [])
  /\ pcm16_to_mulaw (samples ++ more) = pcm16_to_mulaw samples ++ pcm16_to_mulaw more.
Proof.
  destruct pcm16_to_mulaw_pointwise as (f & Hf & Hmap).
  split; [apply length_pcm16_to_mulaw|].
  split; [apply pcm16_to_mulaw_uint8|].
  rewrite !Hmap. split; [|apply map_app].
  split; intros H; [now apply map_eq_nil in H|now subst].
Qed.

(** X6. The conversion of an inbound frame, [mulaw_to_pcm16] and then
    [upsample_8k_to_24k]: three 16-bit samples for every mu-law byte, the
    three being the decoded byte; and it works byte by byte, so a frame cut
    in two converts to the two conversions one after the other. *)
Theorem inbound_conversion_three_samples_per_byte (ulaw more : list Z) :
  let pcm24 := upsample_8k_to_24k (mulaw_to_pcm16 ulaw) in
  length pcm24 = (3 * length ulaw)%nat
  /\ Forall is_int16 pcm24
  /\ (forall i, nth i pcm24 0 = nth (i / 3) (mulaw_to_pcm16 ulaw) 0)
  /\ upsample_8k_to_24k (mulaw_to_pcm16 (ulaw ++ more))
     = pcm24 ++ upsample_8k_to_24k (mulaw_to_pcm16 more).
Proof.
  cbv zeta.
  rewrite !(upsample_repeat (mulaw_to_pcm16_int16 _)).
  split; [now rewrite length_np_repeat3, length_mulaw_to_pcm16|].
  split; [apply np_repeat3_int16, mulaw_to_pcm16_int16|].
  split; [intros i; apply nth_np_repeat3|].
  rewrite !mulaw_to_pcm16_pointwise, map_app. unfold np_repeat3.
  apply flat_map_app.
Qed.

End CodecComposition.

Section Downsampling.

Lemma quot3_between (a b c : Z) :
  Z.min (Z.min a b) c <= Z.quot (a + b + c) 3 <= Z.max (Z.max a b) c.
Proof.
  pose proof (Z.quot_rem' (a + b + c) 3) as H.
  assert (Hr : (0 <= a + b + c /\ 0 <= Z.rem (a + b + c) 3 < 3)
               \/ (a + b + c < 0 /\ -3 < Z.rem (a + b + c) 3 <= 0)).
  { destruct (Z_le_gt_dec 0 (a + b + c)) as [Hs|Hs].
    - left. split; [exact Hs|]. apply Z.rem_bound_pos; lia.
    - right. split; [lia|].
      pose proof (Z.rem_bound_pos (- (a + b + c)) 3 ltac:(lia) ltac:(lia)) as Hn.
      rewrite Z.rem_opp_l' in Hn. lia. }
  set (q := Z.quot (a + b + c) 3) in *. set (r := Z.rem (a + b + c) 3) in *.
  clearbody q r. lia.
Qed.

Lemma nth_reshape3 (x : list Z) (i : nat) :
  (i < length x / 3)%nat ->
  nth i (reshape3 x) (0, 0, 0)
  = (nth (3 * i) x 0, nth (3 * i + 1) x 0, nth (3 * i + 2) x 0).
Proof.
  revert i. induction x as [| a | a b | a b c l IH] using list_ind3; intros i Hi;
    try (cbn in Hi; lia).
  cbn [length] in Hi. rewrite div3_step in Hi.
  destruct i as [|i]; [reflexivity|].
  replace (3 * S i)%nat with (S (S (S (3 * i)))) by lia.
  cbn [reshape3 nth Nat.add]. apply IH. lia.
Qed.

Lemma nth_int16 (x : list Z) (k : nat) : Forall is_int16 x -> is_int16 (nth k x 0).
Proof.
  intros Hx. revert k. induction Hx as [|s x Hs _ IH]; intros [|k]; cbn;
    try assumption; try (unfold is_int16; lia). apply IH.
Qed.

(** X7. Each sample [downsample_24k_to_8k] gives is the sum of three
    consecutive input samples divided by three and rounded toward zero; it
    lies between the smallest and the largest of the three, so it is a
    16-bit sample that no wrap-around has touched. *)
Theorem downsample_is_block_average (x : list Z) (i : nat) :
  Forall is_int16 x ->
  (i < length x / 3)%nat ->
  let a := nth (3 * i) x 0 in
  let b := nth (3 * i + 1) x 0 in
  let c := nth (3 * i + 2) x 0 in
  nth i (downsample_24k_to_8k x) 0 = Z.quot (a + b + c) 3
  /\ Z.min (Z.min a b) c <= nth i (downsample_24k_to_8k x) 0 <= Z.max (Z.max a b) c.
Proof.
  intros Hx Hi. cbv zeta.
  pose proof (quot3_between (nth (3 * i) x 0) (nth (3 * i + 1) x 0) (nth (3 * i + 2) x 0))
    as Hq.
  pose proof (nth_int16 (3 * i) Hx) as Ha.
  pose proof (nth_int16 (3 * i + 1) Hx) as Hb.
  pose proof (nth_int16 (3 * i + 2) Hx) as Hc.
  assert (Hv : nth i (downsample_24k_to_8k x) 0
               = Z.quot (nth (3 * i) x 0 + nth (3 * i + 1) x 0 + nth (3 * i + 2) x 0) 3).
  { rewrite downsample_blocks.
    rewrite (nth_indep _ 0 (mean3_int16 (0, 0, 0)))
      by (rewrite length_map, length_reshape3; exact Hi).
    rewrite map_nth, (nth_reshape3 _ Hi). unfold mean3_int16.
    apply int16_wrap_id. unfold is_int16 in *. lia. }
  rewrite Hv. split; [reflexivity|exact Hq].
Qed.

Lemma downsample_is_block_average_witness :
  Forall is_int16 [3; 4; 6; -1; -1; 0; 9] /\ (1 < length [3; 4; 6; -1; -1; 0; 9]%Z / 3)%nat
  /\ nth 1 (downsample_24k_to_8k [3; 4; 6; -1; -1; 0; 9]) 0 = 0.
Proof.
  assert (H : Forall is_int16 [3; 4; 6; -1; -1; 0; 9]).
  { repeat constructor; unfold is_int16; lia. }
  assert (Hi : (1 < length [3; 4; 6; -1; -1; 0; 9]%Z / 3)%nat) by (cbn; lia).
  split; [exact H|]. split; [exact Hi|].
  rewrite (proj1 (downsample_is_block_average H Hi)). reflexivity.
Defined.

Lemma reshape3_app_blocks (a b : list Z) :
  (length a mod 3 = 0)%nat -> reshape3 (a ++ b) = reshape3 a ++ reshape3 b.
Proof.
  induction a as [| x | x y | x y z l IH] using list_ind3; intros Hm;
    try reflexivity; try discriminate.
  cbn [app reshape3]. rewrite IH; [reflexivity|].
  cbn [length] in Hm.
  change (S (S (S (length l)))) with (3 + length l)%nat in Hm.
  replace (3 + length l)%nat with (length l + 1 * 3)%nat in Hm by lia.
  now rewrite Nat.Div0.mod_add in Hm.
Qed.

(** X8. Downsampling chunk by chunk: when the first chunk holds a
    multiple of three samples the result is the same as downsampling the
    whole; otherwise the samples left over at the end of a chunk are lost,
    and the two results together are at most one sample shorter than that
    of the whole. *)
Theorem downsample_by_chunks (a b : list Z) :
  ((length a mod 3 = 0)%nat ->
   downsample_24k_to_8k (a ++ b) = downsample_24k_to_8k a ++ downsample_24k_to_8k b)
  /\ (length (downsample_24k_to_8k a) + length (downsample_24k_to_8k b)
      <= length (downsample_24k_to_8k (a ++ b))
      <= length (downsample_24k_to_8k a) + length (downsample_24k_to_8k b) + 1)%nat.
Proof.
  rewrite !downsample_blocks. split.
  - intros Hm. now rewrite reshape3_app_blocks, map_app.
  - rewrite !length_map, !length_reshape3, length_app.
    pose proof (Nat.div_mod_eq (length a) 3).
    pose proof (Nat.div_mod_eq (length b) 3).
    pose proof (Nat.div_mod_eq (length a + length b) 3).
    pose proof (Nat.mod_upper_bound (length a) 3 ltac:(lia)).
    pose proof (Nat.mod_upper_bound (length b) 3 ltac:(lia)).
    pose proof (Nat.mod_upper_bound (length a + length b) 3 ltac:(lia)).
    lia.
Qed.

End Downsampling.

(** ** More on the pumps *)

Section InboundOrder.
Context {fl : NumpyFloat} {b64 : Base64}.

Lemma appended_app (l l' : list directive) : appended (l ++ l') = appended l ++ appended l'.
Proof. unfold appended. apply flat_map_app. Qed.

Lemma appended_audio_iter (s : call_state) (pcm24 : list Z) :
  appended (cancel_of s ++ input_audio_buffer_append pcm24 :: commit_of s) = [pcm24].
Proof. unfold cancel_of, commit_of. now destruct (cancelled_once s), (commit_due s). Qed.

(** X9. Audio is forwarded in the order received: on messages that are
    audio frames or are passed over, the appends sent upstream carry the
    conversion of each audio frame, one append per frame and in the order
    of arrival, whatever the state the pump starts in; the pump then awaits
    the next message. *)
Theorem inbound_audio_forwarded_in_order
  (s : call_state) (inputs : list ws_input) (frames : list (list Z)) :
  frames_of inputs frames ->
  appended (sent_by (twilio_to_openai s inputs))
  = map (fun ulaw => upsample_8k_to_24k (mulaw_to_pcm16 ulaw)) frames
  /\ status_after (twilio_to_openai s inputs) = Running.
Proof.
  intros H. revert s.
  induction H as [|raw ulaw rest frames Hraw _ IH|raw rest frames Hraw _ IH]; intros s.
  - now split.
  - cbn [twilio_to_openai]. rewrite (audio_frame_iter s Hraw).
    specialize (IH (after_audio s)).
    destruct (twilio_to_openai (after_audio s) rest) as [[sent s'] st].
    unfold sent_by, status_after in *. cbn [fst snd map] in *.
    destruct IH as [IHa IHs]. split; [|exact IHs].
    now rewrite appended_app, appended_audio_iter, IHa.
  - cbn [twilio_to_openai]. destruct (Hraw s) as [s1 ->].
    specialize (IH s1). destruct (twilio_to_openai s1 rest) as [[sent s'] st].
    unfold sent_by, status_after in *. cbn [fst snd app] in *. exact IH.
Qed.

Lemma start_frame_passed_over (sid : string) : passed_over (start_frame sid).
Proof. intros s. eexists. reflexivity. Qed.

End InboundOrder.

Section InboundOrderCalls.

Lemma mark_frame_passed_over : passed_over mark_frame.
Proof. intros s. eexists. reflexivity. Qed.

Lemma zero_frame_audio : audio_frame (media_frame "AA==") [0].
Proof.
  eapply audio_frame_intro with (payload := "AA=="%string);
    try reflexivity; discriminate.
Qed.

Lemma inbound_audio_forwarded_in_order_witness :
  frames_of [start_frame "CA123"; ff_frame; mark_frame; media_frame "AA=="] [[255]; [0]]
  /\ appended (sent_by (twilio_to_openai initial_state
                 [start_frame "CA123"; ff_frame; mark_frame; media_frame "AA=="]))
     = [upsample_8k_to_24k (mulaw_to_pcm16 [255]); upsample_8k_to_24k (mulaw_to_pcm16 [0])].
Proof.
  assert (H : frames_of [start_frame "CA123"; ff_frame; mark_frame; media_frame "AA=="]
                        [[255]; [0]]).
  { apply frames_other; [apply start_frame_passed_over|].
    apply frames_audio; [exact ff_frame_audio|].
    apply frames_other; [apply mark_frame_passed_over|].
    apply frames_audio; [exact zero_frame_audio|]. constructor. }
  split; [exact H|].
  exact (proj1 (inbound_audio_forwarded_in_order initial_state H)).
Defined.

End InboundOrderCalls.

Section OutboundPump.
Context {fl : NumpyFloat} {b64 : Base64}.

Lemma delta_of_iter (sid : json) (msg : oa_msg) (pcm24 : list Z) :
  delta_of msg pcm24 ->
  openai_to_twilio_iter sid msg
  = if truthy sid && (3 <=? length pcm24)%nat
    then Ok ([media_of sid pcm24], Continue)
    else Ok ([], Continue).
Proof.
  intros (evt & audio & bytes & -> & Hty & Haudio & Hdec & Hbuf).
  assert (Hpay : delta_payload evt = Ok (pcm16_to_mulaw (downsample_24k_to_8k pcm24))).
  { unfold delta_payload. rewrite Haudio. cbn [bind b64decode_value].
    rewrite Hdec. cbn [bind]. now rewrite Hbuf. }
  rewrite (delta_iter sid Hty Hpay).
  assert (Hlen : length (pcm16_to_mulaw (downsample_24k_to_8k pcm24))
                 = (length pcm24 / 3)%nat)
    by now rewrite length_pcm16_to_mulaw, downsample_blocks, length_map, length_reshape3.
  rewrite Hlen. unfold media_of.
  destruct (truthy sid); cbn [negb orb andb]; [|reflexivity].
  destruct (Nat.leb_spec 3 (length pcm24)) as [Hl|Hl].
  - destruct (length pcm24 / 3)%nat eqn:E; [|reflexivity].
    apply Nat.div_small_iff in E; lia.
  - now rewrite Nat.div_small by exact Hl.
Qed.

(** X10. With a stream identifier captured, the outbound pump turns the
    audio deltas into media events in the order received: one event for
    every delta of at least three samples, addressed to the stream and
    carrying the mu-law bytes of the downsampled delta; a shorter delta
    gives no event. The pump then awaits the next message. *)
Theorem outbound_audio_relayed_in_order
  (sid : json) (msgs : list oa_msg) (chunks : list (list Z)) :
  truthy sid = true ->
  Forall2 delta_of msgs chunks ->
  openai_to_twilio sid msgs
  = (map (media_of sid) (filter (fun pcm24 => (3 <=? length pcm24)%nat) chunks), Running).
Proof.
  intros Hsid H. induction H as [|msg pcm24 msgs chunks Hmsg _ IH]; [reflexivity|].
  cbn [openai_to_twilio filter]. rewrite (delta_of_iter sid Hmsg), Hsid, IH.
  cbn [andb]. now destruct (3 <=? length pcm24)%nat.
Qed.

(** X11. An error event of the AI session, an event of any type other
    than an audio delta, an error frame and a frame of a type the pump does
    not test are not fatal: nothing is sent to Twilio and the pump goes on
    with the next message. *)
Theorem outbound_other_messages_passed_over
  (sid : json) (msg : oa_msg) (rest : list oa_msg) :
  msg = oa_error \/ msg = oa_other
  \/ (exists evt ty,
        msg = oa_text (Ok evt) /\ get evt "type" = Ok ty
        /\ eq_str ty "response.audio.delta" = false) ->
  openai_to_twilio_iter sid msg = Ok ([], Continue)
  /\ openai_to_twilio sid (msg :: rest) = openai_to_twilio sid rest.
Proof.
  intros H.
  assert (Hiter : openai_to_twilio_iter sid msg = Ok ([], Continue)).
  { destruct H as [-> | [-> | (evt & ty & -> & Hty & Hne)]]; try reflexivity.
    unfold openai_to_twilio_iter. cbn [bind]. rewrite Hty. cbn [bind]. now rewrite Hne. }
  split; [exact Hiter|].
  cbn [openai_to_twilio]. rewrite Hiter.
  now destruct (openai_to_twilio sid rest) as [sent st].
Qed.

(** An array of 16-bit samples is read from an even number of bytes. *)
Lemma frombuffer_int16_parity (bytes : list Z) :
  (Nat.even (length bytes) = true ->
   exists pcm, frombuffer_int16 bytes = Ok pcm /\ (2 * length pcm = length bytes)%nat)
  /\ (Nat.even (length bytes) = false -> frombuffer_int16 bytes = Exn).
Proof.
  assert (H : forall n bytes, (length bytes <= n)%nat ->
    (Nat.even (length bytes) = true ->
     exists pcm, frombuffer_int16 bytes = Ok pcm /\ (2 * length pcm = length bytes)%nat)
    /\ (Nat.even (length bytes) = false -> frombuffer_int16 bytes = Exn)).
  { clear bytes. induction n as [|n IH]; intros bytes Hn.
    - destruct bytes; [|cbn in Hn; lia]. split; [now exists []|discriminate].
    - destruct bytes as [|lo [|hi rest]].
      + split; [now exists []|discriminate].
      + split; [discriminate|reflexivity].
      + destruct (IH rest) as [He Ho]; [cbn in Hn; lia|].
        cbn [length Nat.even frombuffer_int16]. split.
        * intros E. destruct (He E) as (pcm & -> & Hl). cbn [bind].
          eexists. split; [reflexivity|]. cbn [length]. lia.
        * intros E. now rewrite (Ho E). }
  exact (H (length bytes) bytes (Nat.le_refl _)).
Qed.

(** X12. An audio delta whose audio is missing, is not a string, does
    not decode, or decodes to an odd number of bytes raises in the outbound
    pump: no media event is sent for it, the pump fails and handles none of
    the messages that follow. *)
Theorem outbound_fails_on_unreadable_delta
  (sid evt : json) (rest : list oa_msg) :
  audio_delta evt ->
  index evt "audio" = Exn
  \/ (exists audio, index evt "audio" = Ok audio /\ b64decode_value audio = Exn)
  \/ (exists audio bytes,
        index evt "audio" = Ok (JStr audio) /\ b64decode audio = Ok bytes
        /\ Nat.even (length bytes) = false) ->
  openai_to_twilio_iter sid (oa_text (Ok evt)) = Exn
  /\ openai_to_twilio sid (oa_text (Ok evt) :: rest) = ([], Failed).
Proof.
  intros Hty H.
  assert (Hpay : delta_payload evt = Exn).
  { unfold delta_payload.
    destruct H as [-> | [(audio & -> & Hdec) | (audio & bytes & -> & Hdec & Hodd)]];
      cbn [bind b64decode_value]; [reflexivity|now rewrite Hdec|].
    rewrite Hdec. cbn [bind].
    now rewrite (proj2 (frombuffer_int16_parity bytes) Hodd). }
  assert (Hiter : openai_to_twilio_iter sid (oa_text (Ok evt)) = Exn).
  { unfold audio_delta in Hty. unfold openai_to_twilio_iter. cbn [bind].
    rewrite Hty. eval_event. now rewrite Hpay. }
  split; [exact Hiter|]. cbn [openai_to_twilio]. now rewrite Hiter.
Qed.

End OutboundPump.

Section OutboundCalls.

Lemma three_samples_delta : delta_of three_samples [0; 1; 2].
Proof. exists (JObj [("type", JStr "response.audio.delta"); ("audio", JStr "AAABAAIA")])%string,
         "AAABAAIA"%string, [0; 0; 1; 0; 2; 0]. repeat split; reflexivity. Qed.

Lemma two_samples_delta : delta_of (delta_msg "AAAB/w==") [0; -255].
Proof. exists (JObj [("type", JStr "response.audio.delta"); ("audio", JStr "AAAB/w==")])%string,
         "AAAB/w=="%string, [0; 0; 1; 255]. repeat split; reflexivity. Qed.

Lemma outbound_audio_relayed_in_order_witness :
  Forall2 delta_of [three_samples; delta_msg "AAAB/w=="; three_samples]
                   [[0; 1; 2]; [0; -255]; [0; 1; 2]]
  /\ openai_to_twilio (JStr "CA123") [three_samples; delta_msg "AAAB/w=="; three_samples]
     = ([media_of (JStr "CA123") [0; 1; 2]; media_of (JStr "CA123") [0; 1; 2]], Running).
Proof.
  assert (H : Forall2 delta_of [three_samples; delta_msg "AAAB/w=="; three_samples]
                               [[0; 1; 2]; [0; -255]; [0; 1; 2]]).
  { repeat constructor; [exact three_samples_delta|exact two_samples_delta
                         |exact three_samples_delta]. }
  split; [exact H|].
  exact (@outbound_audio_relayed_in_order _ _ (JStr "CA123") _ _ eq_refl H).
Defined.

Lemma outbound_other_messages_passed_over_witness :
  openai_to_twilio (JStr "CA123")
    [oa_text (Ok (JObj [("type", JStr "error"); ("error", JObj [])]))%string; three_samples]
  = openai_to_twilio (JStr "CA123") [three_samples].
Proof.
  apply (@outbound_other_messages_passed_over _ _ (JStr "CA123")
           (oa_text (Ok (JObj [("type", JStr "error"); ("error", JObj [])]))%string)
           [three_samples]).
  right. right. eexists _, _. repeat split; reflexivity.
Defined.

Lemma outbound_fails_on_unreadable_delta_witness :
  openai_to_twilio (JStr "CA123") [delta_msg "AAAB"; three_samples] = ([], Failed).
Proof.
  apply (@outbound_fails_on_unreadable_delta _ _ (JStr "CA123")
           (JObj [("type", JStr "response.audio.delta"); ("audio", JStr "AAAB")])%string
           [three_samples] eq_refl).
  right. right. exists "AAAB"%string, [0; 0; 1]. repeat split; reflexivity.
Defined.

End OutboundCalls.

Section Addressing.
Context {fl : NumpyFloat} {b64 : Base64}.

Lemma delta_payload_bytes (evt : json) (ulaw : list Z) :
  delta_payload evt = Ok ulaw -> Forall is_uint8 ulaw.
Proof.
  unfold delta_payload.
  destruct (index evt "audio") as [audio|]; cbn [bind]; [|discriminate].
  destruct (b64decode_value audio) as [bytes|]; cbn [bind]; [|discriminate].
  destruct (frombuffer_int16 bytes) as [pcm24|]; cbn [bind]; [|discriminate].
  intros H. injection H as <-.
  apply pcm16_to_mulaw_uint8.
Qed.

Lemma outbound_iter_deliverable (sid : json) (msg : oa_msg) :
  Forall deliverable (emitted (openai_to_twilio_iter sid msg)).
Proof.
  unfold openai_to_twilio_iter.
  destruct msg as [[evt|]| | |]; cbn [bind emitted]; try constructor.
  destruct (get evt "type") as [ty|]; cbn [bind emitted]; [|constructor].
  destruct (eq_str ty "response.audio.delta"); [|constructor].
  destruct (delta_payload evt) as [ulaw|] eqn:Hpay; cbn [bind emitted]; [|constructor].
  destruct (truthy sid) eqn:Hsid; cbn [negb orb]; [|constructor].
  destruct ulaw as [|b ulaw]; cbn [length Nat.eqb]; constructor; [|constructor].
  repeat split; cbn [ev_streamSid ev_payload]; [exact Hsid|discriminate|].
  exact (delta_payload_bytes _ Hpay).
Qed.

Lemma gather_deliverable (b : bridge) (schedule : list arrival) :
  Forall deliverable (gather_down (gather b schedule)).
Proof.
  revert b. induction schedule as [|item rest IH]; intros b; [constructor|].
  cbn [gather]. destruct (gather_over b); [constructor|].
  assert (Hstep : Forall deliverable (snd (fst (bridge_step b item)))).
  { unfold bridge_step. destruct item as [raw|msg].
    - destruct (inbound b); try constructor.
      destruct (twilio_to_openai_iter (call b) raw) as [[[sent s'] [|]]|]; constructor.
    - destruct (outbound b); try constructor.
      pose proof (outbound_iter_deliverable (stream_sid (call b)) msg) as H.
      destruct (openai_to_twilio_iter (stream_sid (call b)) msg) as [[sent [|]]|];
        cbn [emitted fst snd] in *; try exact H; constructor. }
  destruct (bridge_step b item) as [[up down] b'].
  specialize (IH b'). destruct (gather b' rest) as [[up' down'] b''].
  unfold gather_down in *. cbn [fst snd] in *.
  apply Forall_app. now split.
Qed.

(** X13. Every media event a call writes to the Twilio socket names a
    stream (its [streamSid] is neither [None] nor empty) and carries a
    payload of at least one byte, each between 0 and 255; no event is ever
    written with an empty payload or without an address. *)
Theorem media_events_are_deliverable
  (b : bridge) (env : environment) (schedule : list arrival) :
  Forall deliverable (gather_down (gather b schedule))
  /\ (forall e, In (ws_send_text e) (telephony (media_stream env schedule)) ->
                deliverable e).
Proof.
  split; [apply gather_deliverable|].
  intros e. unfold media_stream.
  destruct (key_missing env).
  { intros [H|[H|[]]]; discriminate. }
  destruct (connects env); cbn [negb].
  2:{ intros [H|[]]; discriminate. }
  pose proof (gather_deliverable initial_bridge schedule) as H.
  unfold gather_down in H.
  destruct (gather initial_bridge schedule) as [[up down] b'].
  cbn [fst snd telephony] in *.
  intros [Hin|Hin]; [discriminate|].
  apply in_map_iff in Hin. destruct Hin as (e' & He & Hin). injection He as ->.
  rewrite Forall_forall in H. now apply H.
Qed.

Lemma start_of_iter (s : call_state) (raw : ws_input) (sid : json) :
  start_of raw sid ->
  twilio_to_openai_iter s raw = Ok ([], with_sid s sid, Continue).
Proof.
  intros (data & start & -> & Hev & Hstart & Hsid).
  unfold twilio_to_openai_iter. cbn [bind]. rewrite Hev. eval_event.
  rewrite Hstart. cbn [bind]. now rewrite Hsid.
Qed.

(** X14. The stream identifier of a start event addresses the audio that
    follows: while both pumps run, a start event naming a stream and then an
    audio delta of at least three samples give exactly one media event,
    addressed to that stream, whatever identifier was held before; the
    start event changes nothing else in the state. *)
Theorem start_event_addresses_outbound_audio
  (b : bridge) (raw : ws_input) (sid : json) (msg : oa_msg) (pcm24 : list Z) :
  inbound b = Running -> outbound b = Running ->
  start_of raw sid -> truthy sid = true ->
  delta_of msg pcm24 -> (3 <= length pcm24)%nat ->
  gather b [inl raw; inr msg]
  = ([], [media_of sid pcm24],
     {| call := with_sid (call b) sid; inbound := Running; outbound := Running |}).
Proof.
  intros Hin Hout Hraw Hsid Hmsg Hlen.
  cbn [gather]. unfold gather_over. rewrite Hin, Hout.
  cbn [bridge_step]. rewrite Hin, (start_of_iter (call b) Hraw), Hout.
  cbn [inbound outbound call].
  rewrite (delta_of_iter sid Hmsg), Hsid.
  destruct (Nat.leb_spec 3 (length pcm24)); [reflexivity|lia].
Qed.

Lemma inbound_iter_kinds (s : call_state) (raw : ws_input) :
  forall sent s' l,
    twilio_to_openai_iter s raw = Ok (sent, s', l) ->
    Forall (fun d => from_inbound_pump d = true) sent.
Proof.
  intros sent s' l Heq. pose proof (iteration_cases s raw) as H. rewrite Heq in H.
  inversion H; subst; try constructor.
  unfold cancel_of, commit_of.
  destruct (cancelled_once s), (commit_due s); repeat constructor.
Qed.

Lemma gather_up_kinds (b : bridge) (schedule : list arrival) :
  Forall (fun d => from_inbound_pump d = true) (gather_up (gather b schedule)).
Proof.
  revert b. induction schedule as [|item rest IH]; intros b; [constructor|].
  cbn [gather]. destruct (gather_over b); [constructor|].
  assert (Hstep : Forall (fun d => from_inbound_pump d = true)
                         (fst (fst (bridge_step b item)))).
  { unfold bridge_step. destruct item as [raw|msg].
    - destruct (inbound b); try constructor.
      destruct (twilio_to_openai_iter (call b) raw) as [[[sent s'] [|]]|] eqn:Heq;
        try constructor; exact (@inbound_iter_kinds _ _ _ _ _ Heq).
    - destruct (outbound b); try constructor.
      destruct (openai_to_twilio_iter (stream_sid (call b)) msg) as [[sent [|]]|];
        constructor. }
  destruct (bridge_step b item) as [[up down] b'].
  specialize (IH b'). destruct (gather b' rest) as [[up' down'] b''].
  unfold gather_up in *. cbn [fst snd] in *.
  apply Forall_app. now split.
Qed.

(** X15. In a call whose AI connection is opened, the greeting is
    requested exactly once: [response.create], with the configured voice,
    is the second directive, right after [session.update], and everything
    sent after it is a cancellation, an append or a commit. *)
Theorem greeting_requested_once_after_configuration
  (env : environment) (schedule : list arrival) :
  key_missing env = false ->
  connects env = true ->
  exists rest,
    upstream (media_stream env schedule)
    = session_update (SYSTEM_PROMPT env) (OPENAI_VOICE env)
      :: response_create (OPENAI_VOICE env) :: rest
    /\ Forall (fun d => from_inbound_pump d = true) rest.
Proof.
  intros Hkey Hconn. unfold media_stream. rewrite Hkey, Hconn. cbn [negb].
  pose proof (gather_up_kinds initial_bridge schedule) as H. unfold gather_up in H.
  destruct (gather initial_bridge schedule) as [[up down] b].
  cbn [fst snd upstream] in *. now exists up.
Qed.

End Addressing.

Section AddressingCalls.

Lemma start_event_addresses_outbound_audio_witness :
  start_of (start_frame "CA123") (JStr "CA123")
  /\ gather_down (gather initial_bridge [inl (start_frame "CA123"); inr three_samples])
     = [media_of (JStr "CA123") [0; 1; 2]].
Proof.
  assert (H : start_of (start_frame "CA123") (JStr "CA123")).
  { eexists _, _. repeat split; reflexivity. }
  split; [exact H|].
  rewrite (@start_event_addresses_outbound_audio _ _ initial_bridge _ _ _ _
             eq_refl eq_refl H eq_refl three_samples_delta ltac:(cbn; lia)).
  reflexivity.
Defined.

Lemma greeting_requested_once_after_configuration_witness :
  exists rest,
    upstream (media_stream (test_env true) [inl ff_frame])
    = session_update (SYSTEM_PROMPT (test_env true)) (OPENAI_VOICE (test_env true))
      :: response_create (OPENAI_VOICE (test_env true)) :: rest
    /\ Forall (fun d => from_inbound_pump d = true) rest.
Proof.
  exact (@greeting_requested_once_after_configuration _ _ (test_env true) [inl ff_frame]
           eq_refl eq_refl).
Defined.

End AddressingCalls.

Section InboundDecoding.
Context {fl : NumpyFloat} {b64 : Base64}.

(** X16. A media event whose payload is not empty but cannot be decoded
    (it is not a string, or [b64decode] rejects it) is not dropped: the
    decoding raises, nothing is sent for the frame, and the inbound pump
    fails without handling the messages that follow. *)
Theorem inbound_fails_on_undecodable_payload
  (s : call_state) (data media payload : json) (rest : list ws_input) :
  get data "event" = Ok (JStr "media") ->
  index data "media" = Ok media ->
  get media "payload" = Ok payload ->
  truthy payload = true ->
  b64decode_value payload = Exn ->
  twilio_to_openai_iter s (ws_text (Ok data)) = Exn
  /\ twilio_to_openai s (ws_text (Ok data) :: rest) = ([], s, Failed).
Proof.
  intros Hev Hmedia Hpay Htruthy Hdec.
  assert (Hiter : twilio_to_openai_iter s (ws_text (Ok data)) = Exn).
  { unfold twilio_to_openai_iter. cbn [bind]. rewrite Hev. eval_event.
    rewrite Hmedia. cbn [bind]. rewrite Hpay. cbn [bind].
    rewrite Htruthy. cbn [negb]. now rewrite Hdec. }
  split; [exact Hiter|]. cbn [twilio_to_openai]. now rewrite Hiter.
Qed.

End InboundDecoding.

Section InboundDecodingCalls.

Lemma inbound_fails_on_undecodable_payload_witness :
  twilio_to_openai initial_state [media_frame "QQ"; ff_frame] = ([], initial_state, Failed)
  /\ count is_append (sent_by (twilio_to_openai initial_state [ff_frame])) = 1%nat.
Proof.
  split; [|reflexivity].
  exact (proj2 (@inbound_fails_on_undecodable_payload _ _ initial_state
                  (JObj [("event", JStr "media");
                         ("media", JObj [("payload", JStr "QQ")])])%string
                  (JObj [("payload", JStr "QQ")])%string (JStr "QQ") [ff_frame]
                  eq_refl eq_refl eq_refl eq_refl eq_refl)).
Defined.

End InboundDecodingCalls.
